(** * Verification of sg/data/sintef/eb_userloads.py

    A shallow embedding of the lazily loading per-user load store
    [UserLoads], of the aggregation helpers [total_load],
    [total_load_in_experiment_periods], [total_experiment_load],
    [mean_experiment_load_for_user_subset], [NSK129] and
    [tempfeeder_exp_nonzerotest_users], and of the part of numpy that
    [mean_experiment_load_for_user_subset] calls: the legacy [RandomState(seed).permutation], i.e. the
    MT19937 generator and its Fisher-Yates shuffle. *)

From Stdlib Require Import ZArith Lia List Bool String Floats Uint63.
From stdpp Require Import base gmap list.

Import ListNotations.
Open Scope Z_scope.

(* ------------------------------------------------------------------ *)
(** ** numpy.random.RandomState (legacy MT19937) *)
(* ------------------------------------------------------------------ *)

Module MT19937.

Definition N : nat := 624.
Definition M : nat := 397.
Definition MATRIX_A : Z := 2567483615.     (* 0x9908b0df *)
Definition UPPER_MASK : Z := 2147483648.   (* 0x80000000 *)
Definition LOWER_MASK : Z := 2147483647.   (* 0x7fffffff *)
Definition MASK32 : Z := 4294967295.       (* 0xffffffff *)

(** The generator state: the 624 key words and the position [pos]. *)
Record mt_state := { key : list Z; pos : nat }.

(** [mt19937_seed]: [key[0] = seed & 0xffffffff] and
    [key[i] = (1812433253 * (key[i-1] ^ (key[i-1] >> 30)) + i) & 0xffffffff];
    [pos = 624], so that the first draw regenerates the block. *)
Fixpoint seed_words (n : nat) (i : Z) (prev : Z) : list Z :=
  match n with
  | O => []
  | S n' =>
      let w := Z.land (1812433253 * Z.lxor prev (Z.shiftr prev 30) + i) MASK32 in
      w :: seed_words n' (i + 1) w
  end.

Definition mt19937_seed (seed : Z) : mt_state :=
  let s := Z.land seed MASK32 in
  {| key := s :: seed_words (N - 1) 1 s; pos := N |}.

Definition kth (k : list Z) (i : nat) : Z := nth i k 0.

(** One in-place step of [mt19937_gen] at index [i]:
    [y = (key[i] & UPPER) | (key[i+1 mod N] & LOWER)];
    [key[i] = key[i+M mod N] ^ (y >> 1) ^ (-(y & 1) & MATRIX_A)].
    Reading the current array reproduces the three loops of the C code,
    whose later iterations read already updated words. *)
Definition gen_step (k : list Z) (i : nat) : list Z :=
  let y := Z.lor (Z.land (kth k i) UPPER_MASK)
                 (Z.land (kth k ((i + 1) mod N)) LOWER_MASK) in
  let v := Z.lxor (Z.lxor (kth k ((i + M) mod N)) (Z.shiftr y 1))
                  (if Z.odd y then MATRIX_A else 0) in
  <[i := v]> k.

Fixpoint gen_loop (k : list Z) (i : nat) (n : nat) : list Z :=
  match n with
  | O => k
  | S n' => gen_loop (gen_step k i) (S i) n'
  end.

Definition mt19937_gen (k : list Z) : list Z := gen_loop k 0 N.

(** [mt19937_next32] (legacy [rk_random]): regenerate when [pos = 624],
    then temper [key[pos++]]. *)
Definition next32 (st : mt_state) : Z * mt_state :=
  let '(k, p) := if Nat.eqb (pos st) N then (mt19937_gen (key st), O)
                 else (key st, pos st) in
  let y := kth k p in
  let y := Z.lxor y (Z.shiftr y 11) in
  let y := Z.lxor y (Z.land (Z.shiftl y 7) 2636928640) in   (* 0x9d2c5680 *)
  let y := Z.lxor y (Z.land (Z.shiftl y 15) 4022730752) in  (* 0xefc60000 *)
  let y := Z.lxor y (Z.shiftr y 18) in
  (y, {| key := k; pos := S p |}).

(** The mask of [rk_interval]: [max] with all lower bits set. *)
Definition interval_mask (mx : Z) : Z :=
  let m := Z.lor mx (Z.shiftr mx 1) in
  let m := Z.lor m (Z.shiftr m 2) in
  let m := Z.lor m (Z.shiftr m 4) in
  let m := Z.lor m (Z.shiftr m 8) in
  let m := Z.lor m (Z.shiftr m 16) in
  Z.lor m (Z.shiftr m 32).

(** [rk_interval(max)]: rejection sampling
    [while ((value = (rk_random() & mask)) > max);] for [max <= 0xffffffff].
    The loop is bounded by [fuel]; each round succeeds with probability
    above 1/2, and the fuel used below is never exhausted on the inputs we
    evaluate. *)
Fixpoint interval_loop (fuel : nat) (mx mask : Z) (st : mt_state) : Z * mt_state :=
  match fuel with
  | O => (0, st)
  | S f =>
      let '(r, st') := next32 st in
      let v := Z.land r mask in
      if v <=? mx then (v, st') else interval_loop f mx mask st'
  end.

Definition rk_interval (mx : Z) (st : mt_state) : Z * mt_state :=
  if mx =? 0 then (0, st) else interval_loop 1000 mx (interval_mask mx) st.

(** Legacy [shuffle]: [for i in reversed(range(1, n)):
    j = rk_interval(i); x[i], x[j] = x[j], x[i]]. *)
Fixpoint shuffle_loop {A} (fuel : nat) (i : nat) (x : list A) (st : mt_state)
  : list A * mt_state :=
  match fuel with
  | O => (x, st)
  | S f =>
      match i with
      | O => (x, st)
      | S _ =>
          let '(j, st') := rk_interval (Z.of_nat i) st in
          let jn := Z.to_nat j in
          let x' := match x !! i, x !! jn with
                    | Some xi, Some xj => <[jn := xi]> (<[i := xj]> x)
                    | _, _ => x
                    end in
          shuffle_loop f (pred i) x' st'
      end
  end.

Definition shuffle {A} (x : list A) (st : mt_state) : list A * mt_state :=
  shuffle_loop (length x) (pred (length x)) x st.

(** [RandomState(seed).permutation(x)]: a shuffled copy of [x]. The
    constructor rejects seeds outside [0, 2**32 - 1] with [ValueError],
    modelled by [None]. *)
Definition permutation {A} (seed : Z) (x : list A) : option (list A) :=
  if (seed <? 0) || (MASK32 <? seed) then None
  else Some (fst (shuffle x (mt19937_seed seed))).

End MT19937.

(* ------------------------------------------------------------------ *)
(** ** Data model: frames, the HDF5 store, the [UserLoads] object *)
(* ------------------------------------------------------------------ *)

Module EB.

Import MT19937.

(** A load frame as read from the HDF5 file: rows of a timestamp (seconds
    since 1970-01-01 00:00, naive datetimes as in the source) and a float64
    load value. *)
Definition frame := list (Z * float).

(** [s[start:end]] on a sorted DatetimeIndex: label slicing, inclusive at
    both ends. *)
Definition restrict (d : frame) (lo hi : Z) : frame :=
  filter (fun row => (lo <=? fst row) && (fst row <=? hi)) d.

(** The first row of [d] stamped [t]. *)
Definition lookup_ts (t : Z) (d : frame) : option float :=
  option_map snd (find (fun row => fst row =? t) d).

(** Python objects on the heap: an owned frame, or a slice [base[lo:hi]]
    that is a view onto the frame at address [base] (pandas returns views
    for label slices, so writes through it reach the base). *)
Inductive obj :=
| Frame (rows : frame)
| View (base : nat) (lo hi : Z).

(** The opened [pd.HDFStore]: the stored ["user_ids"] entry and the frame
    stored under ["id_" + str(user_id)]. It is opened read-only. *)
Record hdfstore := { stored_user_ids : list Z; stored_load : Z -> frame }.

(** A [UserLoads] instance. [_user_ids] is [set(self._store["user_ids"])]
    in its iteration order (the [user_ids] property is [list(...)] of it);
    [_loads] is the dict of loads read so far, mapping a user id to the heap
    address of its object; [heap] holds every object; [reads] logs each
    [self._store["id_" + str(user_id)]] access. *)
Record userloads := {
  _store : hdfstore;
  _user_ids : list Z;
  _loads : gmap Z nat;
  heap : list obj;
  reads : list Z
}.

Definition UserLoads_init (s : hdfstore) : userloads :=
  {| _store := s; _user_ids := nodup Z.eq_dec (stored_user_ids s);
     _loads := ∅; heap := []; reads := [] |}.

Definition user_ids (u : userloads) : list Z := _user_ids u.

Definition mem (x : Z) (l : list Z) : bool := existsb (Z.eqb x) l.

(** The current contents of the object at address [p]. *)
Definition deref (h : list obj) (p : nat) : frame :=
  match h !! p with
  | Some (Frame d) => d
  | Some (View b lo hi) =>
      match h !! b with Some (Frame d) => restrict d lo hi | _ => [] end
  | None => []
  end.

(** Python exceptions raised along the modelled paths. *)
Inductive exn := KeyError | IndexError | AttributeError | ValueError.

Inductive result (A : Type) := Ok (a : A) | Err (e : exn).
Arguments Ok {A} a.
Arguments Err {A} e.

(** Statements run on the [UserLoads] object; an exception keeps the
    mutations made before it was raised. *)
Definition M (A : Type) : Type := userloads -> result A * userloads.

Global Instance M_ret : MRet M := fun A a s => (Ok a, s).
Global Instance M_bind : MBind M := fun A B f m s =>
  match m s with
  | (Ok a, s') => f a s'
  | (Err e, s') => (Err e, s')
  end.

Definition raise {A} (e : exn) : M A := fun s => (Err e, s).
Definition gets {A} (f : userloads -> A) : M A := fun s => (Ok (f s), s).
Definition modify (f : userloads -> userloads) : M unit := fun s => (Ok tt, f s).

Definition set_heap (h : list obj) (u : userloads) : userloads :=
  {| _store := _store u; _user_ids := _user_ids u; _loads := _loads u;
     heap := h; reads := reads u |}.
Definition set_loads (l : gmap Z nat) (u : userloads) : userloads :=
  {| _store := _store u; _user_ids := _user_ids u; _loads := l;
     heap := heap u; reads := reads u |}.
Definition log_read (user_id : Z) (u : userloads) : userloads :=
  {| _store := _store u; _user_ids := _user_ids u; _loads := _loads u;
     heap := heap u; reads := reads u ++ [user_id] |}.

(** A fresh object at the next free address. *)
Definition alloc (o : obj) : M nat :=
  fun s => (Ok (length (heap s)), set_heap (heap s ++ [o]) s).

Fixpoint mapM {A B} (f : A -> M B) (l : list A) : M (list B) :=
  match l with
  | [] => mret []
  | x :: l' => y ← f x; ys ← mapM f l'; mret (y :: ys)
  end.

Fixpoint iterM {A} (f : A -> M unit) (l : list A) : M unit :=
  match l with
  | [] => mret tt
  | x :: l' => f x;; iterM f l'
  end.

(* ------------------------------------------------------------------ *)
(** ** class UserLoads *)
(* ------------------------------------------------------------------ *)

(** [read]: validate against [user_ids], read the frame from the store,
    overwrite [_loads[user_id]] with it and return it. *)
Definition read (user_id : Z) : M nat :=
  ids ← gets user_ids;
  if negb (mem user_id ids) then raise KeyError else
  s ← gets _store;
  modify (log_read user_id);;
  user_load ← alloc (Frame (stored_load s user_id));
  modify (fun u => set_loads (<[user_id := user_load]> (_loads u)) u);;
  mret user_load.

Definition read_all : M unit :=
  ids ← gets user_ids;
  iterM (fun user_id => _ ← read user_id; mret tt) ids.

Definition getitem (user_id : Z) : M nat :=
  l ← gets _loads;
  match l !! user_id with
  | None => read user_id
  | Some p => mret p
  end.

Definition setitem (user_id : Z) (user_load : nat) : M unit :=
  ids ← gets user_ids;
  if negb (mem user_id ids) then raise KeyError else
  modify (fun u => set_loads (<[user_id := user_load]> (_loads u)) u).

Definition pop (user_id : Z) : M nat :=
  ids ← gets user_ids;
  if negb (mem user_id ids) then raise KeyError else
  l ← gets _loads;
  (match l !! user_id with None => _ ← read user_id; mret tt | Some _ => mret tt end);;
  l' ← gets _loads;
  match l' !! user_id with
  | Some p => modify (fun u => set_loads (delete user_id (_loads u)) u);; mret p
  | None => raise KeyError
  end.

(** Attribute lookup on a [UserLoads] instance for the attributes holding
    a collection of user ids ([self.loads] is iterated over its keys). Any
    other name raises [AttributeError]. *)
Definition getattr_ids (name : string) : M (list Z) :=
  if String.eqb name "user_ids" then gets user_ids
  else if String.eqb name "_user_ids" then gets _user_ids
  else if String.eqb name "loads" then gets (fun u => map fst (map_to_list (_loads u)))
  else if String.eqb name "_loads" then gets (fun u => map fst (map_to_list (_loads u)))
  else raise AttributeError.

(** [__contains__]: [return user_id in self.user_id]. *)
Definition contains (user_id : Z) : M bool :=
  l ← getattr_ids "user_id";
  mret (mem user_id l).

(* ------------------------------------------------------------------ *)
(** ** Aggregation helpers *)
(* ------------------------------------------------------------------ *)

(** [obj[lo:hi]]: a view onto the underlying frame (a slice of a slice
    is a view onto the same base with the intersected bounds). *)
Definition slice (p : nat) (lo hi : Z) : M nat :=
  h ← gets heap;
  match h !! p with
  | Some (View b lo' hi') => alloc (View b (Z.max lo lo') (Z.min hi hi'))
  | _ => alloc (View p lo hi)
  end.

(** [obj.copy()]: a fresh frame with the current contents. *)
Definition copy (p : nat) : M nat :=
  d ← gets (fun u => deref (heap u) p);
  alloc (Frame d).

(** [a + b] aligned on [a]'s index: a row of [a] whose timestamp is missing
    from [b] becomes NaN ([a += b] reindexes the sum like [a]). *)
Definition align_add (a b : frame) : frame :=
  map (fun row => (fst row,
         match lookup_ts (fst row) b with
         | Some w => PrimFloat.add (snd row) w
         | None => PrimFloat.nan
         end)) a.

(** Writing new contents [d] into the rows of [bd] that a view [lo:hi]
    covers. *)
Definition write_through (bd : frame) (lo hi : Z) (d : frame) : frame :=
  map (fun row =>
         if (lo <=? fst row) && (fst row <=? hi)
         then match lookup_ts (fst row) d with
              | Some w => (fst row, w)
              | None => row
              end
         else row) bd.

(** Store new contents into the object at [p], in place. *)
Definition write_obj (p : nat) (d : frame) (h : list obj) : list obj :=
  match h !! p with
  | Some (Frame _) => <[p := Frame d]> h
  | Some (View b lo hi) =>
      match h !! b with
      | Some (Frame bd) => <[b := Frame (write_through bd lo hi d)]> h
      | _ => h
      end
  | None => h
  end.

(** [total += single_series], in place on [total]. *)
Definition iadd (total single : nat) : M unit :=
  modify (fun u => set_heap
    (write_obj total (align_add (deref (heap u) total) (deref (heap u) single)) (heap u)) u).

(** [total_load(userloads, user_ids, period)]:
    [series = [userloads[user][period[0]:period[1]] for user in user_ids]];
    [total = series[0].copy()]; [for single_series in series[1:]:
    total += single_series]; [return total]. *)
Definition total_load (user_ids : list Z) (period : Z * Z) : M nat :=
  series ← mapM (fun user => p ← getitem user; slice p (fst period) (snd period)) user_ids;
  match series with
  | [] => raise IndexError
  | s0 :: rest =>
      total ← copy s0;
      iterM (fun single_series => iadd total single_series) rest;;
      mret total
  end.

(** [experiment_periods()]: 2004-02-01 00:00 .. 2005-07-01 00:00 and
    2005-10-01 00:00 .. 2006-10-01 00:00. *)
Definition experiment_periods : list (Z * Z) :=
  [(1075593600, 1120176000); (1128124800, 1159660800)].

Definition total_load_in_experiment_periods (user_ids : list Z) : M (list nat) :=
  mapM (fun period => total_load user_ids period) experiment_periods.

(** Python's [seq[:n]]. *)
Definition py_slice_to {A} (l : list A) (n : Z) : list A :=
  if 0 <=? n then firstn (Z.to_nat n) l
  else firstn (Z.to_nat (Z.max 0 (Z.of_nat (length l) + n))) l.

(** Lines 323-325: [if seed is None: seed = np.random.randint(1, 2**16)];
    [np.random.RandomState(seed).permutation(loads.user_ids)[:num_users]].
    [g] is the state of numpy's global generator, only drawn from when no
    seed is given ([randint(1, 2**16)] is [1 + rk_interval(65534)]). *)
Definition random_identifier_subset (g : mt_state) (all_ids : list Z)
    (num_users : Z) (seed : option Z) : result (list Z) :=
  let seed := match seed with
              | Some s => s
              | None => 1 + fst (rk_interval 65534 g)
              end in
  match permutation seed all_ids with
  | Some perm => Ok (py_slice_to perm num_users)
  | None => Err ValueError
  end.

(** [series / n]: a new frame, each value divided by the float [n]. *)
Definition div_frame (d : frame) (n : nat) : frame :=
  map (fun row => (fst row, PrimFloat.div (snd row) (PrimFloat.of_uint63 (Uint63.of_Z (Z.of_nat n))))) d.

(** [mean_experiment_load_for_user_subset(num_users, seed)], run on the
    [tempfeeder_exp()] instance: [[l / len(user_ids) for l in
    total_load_in_experiment_periods(loads, user_ids)]]. The quotients are
    fresh objects; their contents are returned. *)
Definition mean_experiment_load_for_user_subset (g : mt_state) (num_users : Z)
    (seed : option Z) : M (list frame) :=
  all_ids ← gets user_ids;
  match random_identifier_subset g all_ids num_users seed with
  | Err e => raise e
  | Ok user_ids =>
      totals ← total_load_in_experiment_periods user_ids;
      h ← gets heap;
      mret (map (fun l => div_frame (deref h l) (length user_ids)) totals)
  end.

(** [NSK129_user_ids()]: the meters of transformer circuit NSK129-T1. *)
Definition NSK129_user_ids : list Z :=
  [707057500045751944; 707057500045752170; 707057500045752255;
   707057500045752231; 707057500045752217; 707057500045752194;
   707057500045752156; 707057500045752132; 707057500045752118;
   707057500045752088; 707057500045752064; 707057500045752057;
   707057500045752033; 707057500045752002; 707057500045751982;
   707057500045751975; 707057500045751937; 707057500045751913;
   707057500045745844; 707057500045745851; 707057500045745929;
   707057500045745936; 707057500045746001; 707057500045746018;
   707057500045745868; 707057500045745875; 707057500045745943;
   707057500045745950; 707057500045746025; 707057500045746032;
   707057500045745882; 707057500045745837; 707057500045745899;
   707057500045745974; 707057500045746049; 707057500045746056;
   707057500045745905; 707057500045745981; 707057500045745998;
   707057500045746063; 707057500045746070; 707057500045745912;
   707057500045745639; 707057500045745707; 707057500045745714;
   707057500045745783; 707057500045745790; 707057500045745646;
   707057500045745653; 707057500045745738; 707057500045745806;
   707057500045745615; 707057500045745776; 707057500045745622;
   707057500045745578; 707057500045745585; 707057500045745592;
   707057500045745813; 707057500045745660; 707057500045745684;
   707057500045745721; 707057500045745769; 707057500045745677;
   707057500045745745; 707057500045745752; 707057500045745608;
   707057500045750442; 707057500045752613; 707057500045752606;
   707057500045752163; 707057500045752200; 707057500045752224;
   707057500045752149; 707057500045752187; 707057500045752293;
   707057500045752286; 707057500045752071; 707057500045752040;
   707057500045752095; 707057500045752125; 707057500045752101;
   707057500045752026; 707057500045752279; 707057500045752262;
   707057500045751814; 707057500045751807; 707057500045751890;
   707057500045751883; 707057500045751876; 707057500045751869;
   707057500045751821; 707057500045751838; 707057500045751845;
   707057500045751852; 707057500045751999; 707057500045751951;
   707057500045752019; 707057500045751920; 707057500045751968;
   707057500045751906; 707057500045745691; 707057500045745967].

(** The body of [NSK129] for the id list [nsk129]:
    [total = userloads.read(nsk129[0])];
    [for user_id in nsk129[1:]: total += userloads.read(user_id)]. *)
Definition NSK129_body (nsk129 : list Z) : M nat :=
  match nsk129 with
  | [] => raise IndexError
  | first :: rest =>
      total ← read first;
      iterM (fun user_id => l ← read user_id; iadd total l) rest;;
      mret total
  end.

Definition NSK129 : M nat := NSK129_body NSK129_user_ids.

(** [total_experiment_load()], run on the [tempfeeder_exp()] instance. *)
Definition total_experiment_load : M (list nat) :=
  ids ← gets user_ids;
  total_load_in_experiment_periods ids.

(** [__len__]: [len(self.user_ids)]. *)
Definition len (u : userloads) : nat := length (user_ids u).

Fixpoint filterM {A} (f : A -> M bool) (l : list A) : M (list A) :=
  match l with
  | [] => mret []
  | x :: l' => mbind (fun (b : bool) => mbind (fun (ys : list A) => mret (if b then x :: ys else ys)) (filterM f l')) (f x)
  end.

(** Python truth value of a float: [x != 0.0] (NaN is true, -0.0 false). *)
Definition float_truthy (x : float) : bool := negb (PrimFloat.eqb x PrimFloat.zero).

(** [s['2005-10-01 00:00':]]: label slicing open at the upper end. *)
Definition restrict_from (d : frame) (lo : Z) : frame :=
  filter (fun row => lo <=? fst row) d.

Definition test_period_start : Z := 1128124800.

(** [tempfeeder_exp_nonzerotest_users()], run on the [tempfeeder_exp()]
    instance: [[user for user in loads.user_ids
    if all(loads[user]['Load']['2005-10-01 00:00':])]]. The column and
    the slice are read-only temporaries, read here through [deref]. *)
Definition tempfeeder_exp_nonzerotest_users : M (list Z) :=
  ids ← gets user_ids;
  filterM (fun user =>
             p ← getitem user;
             h ← gets heap;
             mret (forallb (fun row => float_truthy (snd row))
                           (restrict_from (deref h p) test_period_start))) ids.

(* ------------------------------------------------------------------ *)
(** ** States reachable through the cache operations *)
(* ------------------------------------------------------------------ *)

Inductive cache_op :=
| OpGet (user_id : Z)
| OpSet (user_id : Z) (user_load : nat)
| OpRead (user_id : Z)
| OpReadAll
| OpPop (user_id : Z).

Definition run_op (o : cache_op) : M unit :=
  match o with
  | OpGet i => _ ← getitem i; mret tt
  | OpSet i p => setitem i p
  | OpRead i => _ ← read i; mret tt
  | OpReadAll => read_all
  | OpPop i => _ ← pop i; mret tt
  end.

(** [cache[user_id] = obj] assigns an object that exists. *)
Definition op_ok (u : userloads) (o : cache_op) : Prop :=
  match o with
  | OpSet _ p => (p < length (heap u))%nat
  | _ => True
  end.

(** Every state a [UserLoads] instance reaches from construction through
    its operations (each call may succeed or raise). *)
Inductive reachable : userloads -> Prop :=
| reach_init s : reachable (UserLoads_init s)
| reach_step u o : reachable u -> op_ok u o -> reachable (snd (run_op o u)).

(** The invariant: every key of [_loads] is a valid user id. *)
Definition loads_valid (u : userloads) : Prop :=
  forall i p, _loads u !! i = Some p -> mem i (user_ids u) = true.

(* ------------------------------------------------------------------ *)
(** ** Auxiliary notions for the proofs *)
(* ------------------------------------------------------------------ *)

(** The state after a successful [read user_id]. *)
Definition after_read (u : userloads) (i : Z) : userloads :=
  {| _store := _store u; _user_ids := _user_ids u;
     _loads := <[i := length (heap u)]> (_loads u);
     heap := heap u ++ [Frame (stored_load (_store u) i)];
     reads := reads u ++ [i] |}.

(** [n] calls of [getitem user_id] in a row. *)
Definition get_repeat (n : nat) (user_id : Z) : M (list nat) :=
  mapM (fun _ : unit => getitem user_id) (repeat tt n).

(** A statement of the object keeps [P]. *)
Definition preserves (P : userloads -> Prop) {A} (m : M A) : Prop :=
  forall u, P u -> P (snd (m u)).

(** Keys of [_loads] are valid ids, cached addresses are allocated, and
    (no slice being cached by these operations) the heap holds frames. *)
Record cache_inv (u : userloads) : Prop := {
  inv_valid : loads_valid u;
  inv_in_heap : forall i p, _loads u !! i = Some p -> (p < length (heap u))%nat;
  inv_frames : forall q o, heap u !! q = Some o -> exists d, o = Frame d
}.

(** What [getitem user_id] would return in state [u], by contents. *)
Definition get_value (u : userloads) (i : Z) : frame :=
  match _loads u !! i with
  | Some p => deref (heap u) p
  | None => stored_load (_store u) i
  end.

(** [h'] keeps every object of [h] at its address. *)
Definition extends (h h' : list obj) : Prop :=
  forall q o, h !! q = Some o -> h' !! q = Some o.

(** How [u] relates to the state [u0] a [total_load] call started from:
    same store and ids, older objects kept, cached ids kept, and every
    cached id maps to a frame holding what [getitem] gave in [u0]. *)
Record grows (u0 u : userloads) : Prop := {
  g_store : _store u = _store u0;
  g_ids : _user_ids u = _user_ids u0;
  g_prefix : extends (heap u0) (heap u);
  g_keep : forall i p, _loads u0 !! i = Some p -> _loads u !! i = Some p;
  g_frames : forall i p, _loads u !! i = Some p ->
               heap u !! p = Some (Frame (get_value u0 i))
}.

(** The contents of the frame returned by [total_load]. *)
Definition total_load_value (ids : list Z) (period : Z * Z) (u : userloads) : result frame :=
  match total_load ids period u with
  | (Ok p, u') => Ok (deref (heap u') p)
  | (Err e, _) => Err e
  end.

(** The reading of [mean_subset_load] in which every total is divided by
    the requested [count] rather than by the size of the drawn subset. *)
Definition mean_subset_load_by_count (g : mt_state) (count : Z) (seed : option Z)
    : M (list frame) :=
  all_ids ← gets user_ids;
  match random_identifier_subset g all_ids count seed with
  | Err e => raise e
  | Ok user_ids =>
      totals ← total_load_in_experiment_periods user_ids;
      h ← gets heap;
      mret (map (fun l => div_frame (deref h l) (Z.to_nat count)) totals)
  end.

(** The bit patterns of a result of frames, to tell floats apart. *)
Definition frames_bits (r : result (list frame)) : list (list (Z * spec_float)) :=
  match r with
  | Ok l => map (map (fun row => (fst row, Prim2SF (snd row)))) l
  | Err _ => []
  end.

Definition frame_bits (r : result frame) : list (Z * spec_float) :=
  match r with
  | Ok d => map (fun row => (fst row, Prim2SF (snd row))) d
  | Err _ => []
  end.

(** Every cached id maps to an allocated frame (slices may sit elsewhere
    on the heap). *)
Definition cached_frames (u : userloads) : Prop :=
  forall i p, _loads u !! i = Some p -> exists d, heap u !! p = Some (Frame d).

(** 0.[n] as a float64, rounded like the Python literal. *)
Definition tenths (n : Z) : float :=
  PrimFloat.div (PrimFloat.of_uint63 (Uint63.of_Z n)) (PrimFloat.of_uint63 10).

(** A small store: users 1, 2 and 3 with two hourly readings each at the
    start of the first experiment period, 0.n and n kWh/h for user n. *)
Definition sample_store : hdfstore :=
  {| stored_user_ids := [1; 2; 3];
     stored_load := fun i => [(1075593600, tenths i); (1075597200, tenths (10 * i))] |}.

Definition sample : userloads := UserLoads_init sample_store.

(** The total [total_load] computes for [i0 :: rest] over [lo .. hi]
    when [f] gives each id's frame. *)
Definition fold_total (f : Z -> frame) (i0 : Z) (rest : list Z) (lo hi : Z) : frame :=
  fold_left align_add (map (fun i => restrict (f i) lo hi) rest) (restrict (f i0) lo hi).

(** The test of [tempfeeder_exp_nonzerotest_users] on a load: every
    reading from 2005-10-01 00:00 on is non-zero. *)
Definition nonzero_in_test_period (d : frame) : bool :=
  forallb (fun row => float_truthy (snd row)) (restrict_from d test_period_start).

(** The [seed] arguments [RandomState] accepts: none, or one in
    [0, 2**32 - 1]. *)
Definition seed_ok (seed : option Z) : Prop :=
  match seed with
  | None => True
  | Some s => 0 <= s <= MASK32
  end.

End EB.

(* ------------------------------------------------------------------ *)
(** ** Properties *)
(* ------------------------------------------------------------------ *)

Import EB.

Ltac run_M :=
  cbv [mbind M_bind mret M_ret gets modify raise alloc set_heap set_loads log_read] in *;
  simpl in *.

Lemma read_valid (u : userloads) (i : Z) :
  mem i (user_ids u) = true ->
  read i u = (Ok (length (heap u)), after_read u i).
Proof.
  intros H. unfold read. run_M. rewrite H. reflexivity.
Qed.

Lemma read_invalid (u : userloads) (i : Z) :
  mem i (user_ids u) = false -> read i u = (Err KeyError, u).
Proof. intros H. unfold read. run_M. rewrite H. reflexivity. Qed.

Lemma getitem_hit (u : userloads) (i : Z) (p : nat) :
  _loads u !! i = Some p -> getitem i u = (Ok p, u).
Proof. intros H. unfold getitem. run_M. rewrite H. reflexivity. Qed.

Lemma getitem_miss (u : userloads) (i : Z) :
  _loads u !! i = None -> getitem i u = read i u.
Proof. intros H. unfold getitem. run_M. rewrite H. reflexivity. Qed.

Lemma deref_app_last (h : list obj) (d : frame) :
  deref (h ++ [Frame d]) (length h) = d.
Proof.
  unfold deref. rewrite lookup_app_r by lia. rewrite Nat.sub_diag. reflexivity.
Qed.

Lemma get_repeat_hit (u : userloads) (i : Z) (p : nat) (n : nat) :
  _loads u !! i = Some p -> get_repeat n i u = (Ok (repeat p n), u).
Proof.
  intros H. unfold get_repeat. induction n as [|n IH]; [reflexivity|].
  simpl. cbv [mbind M_bind mret M_ret] in *. rewrite (getitem_hit u i p H).
  rewrite IH. reflexivity.
Qed.

(** C1. Reading a valid user id that is not cached yet: exactly one store
    read (of that id) is logged, the unmodified stored frame is cached under
    the id as a new object, and that object is returned; every later
    [getitem] of the id returns the same object and reads nothing. *)
Theorem getitem_uncached_reads_once (u : userloads) (i : Z) :
  mem i (user_ids u) = true -> _loads u !! i = None ->
  exists p u',
    getitem i u = (Ok p, u') /\
    reads u' = reads u ++ [i] /\
    _loads u' = <[i := p]> (_loads u) /\
    heap u' = heap u ++ [Frame (stored_load (_store u) i)] /\
    deref (heap u') p = stored_load (_store u) i /\
    (forall n, get_repeat n i u' = (Ok (repeat p n), u')).
Proof.
  intros Hv Hn. exists (length (heap u)), (after_read u i).
  rewrite getitem_miss by exact Hn. rewrite read_valid by exact Hv.
  repeat split; try reflexivity.
  - simpl. apply deref_app_last.
  - intros n. apply get_repeat_hit. simpl. apply lookup_insert_eq.
Qed.

(** C2. [total_load] over an empty list of user ids raises [IndexError]
    (from [series[0]]) without touching the object; it never yields a
    series, and the error is not the [KeyError] of an unknown id. *)
Theorem total_load_empty_raises (u : userloads) (period : Z * Z) :
  total_load [] period u = (Err IndexError, u) /\ IndexError <> KeyError.
Proof. split; [reflexivity | discriminate]. Qed.

(** C3. [__contains__] looks up the attribute [self.user_id], which the
    class does not have (the property is [user_ids]): every membership test
    raises [AttributeError], for valid and invalid ids alike. *)
Theorem contains_raises_attribute_error (u : userloads) (i : Z) :
  contains i u = (Err AttributeError, u).
Proof. reflexivity. Qed.

(** *** The other operations, case by case *)

Lemma setitem_valid (u : userloads) (i : Z) (p : nat) :
  mem i (user_ids u) = true ->
  setitem i p u = (Ok tt, set_loads (<[i := p]> (_loads u)) u).
Proof. intros H. unfold setitem. run_M. rewrite H. reflexivity. Qed.

Lemma setitem_invalid (u : userloads) (i : Z) (p : nat) :
  mem i (user_ids u) = false -> setitem i p u = (Err KeyError, u).
Proof. intros H. unfold setitem. run_M. rewrite H. reflexivity. Qed.

Lemma pop_invalid (u : userloads) (i : Z) :
  mem i (user_ids u) = false -> pop i u = (Err KeyError, u).
Proof. intros H. unfold pop. run_M. rewrite H. reflexivity. Qed.

Lemma pop_cached (u : userloads) (i : Z) (p : nat) :
  mem i (user_ids u) = true -> _loads u !! i = Some p ->
  pop i u = (Ok p, set_loads (delete i (_loads u)) u).
Proof. intros H E. unfold pop. run_M. rewrite H. simpl. repeat (rewrite E; simpl). reflexivity. Qed.

Lemma pop_uncached (u : userloads) (i : Z) :
  mem i (user_ids u) = true -> _loads u !! i = None ->
  pop i u = (Ok (length (heap u)),
             set_loads (delete i (_loads (after_read u i))) (after_read u i)).
Proof.
  intros H E. unfold pop. run_M. rewrite H. simpl. rewrite E.
  rewrite read_valid by exact H. simpl. rewrite lookup_insert_eq. reflexivity.
Qed.

Lemma iterM_preserves (P : userloads -> Prop) {A} (f : A -> M unit) (l : list A) :
  (forall x, preserves P (f x)) -> preserves P (iterM f l).
Proof.
  intros Hf. induction l as [|x l IH]; intros u Hu; [exact Hu|].
  simpl. cbv [mbind M_bind]. specialize (Hf x u Hu).
  destruct (f x u) as [[a|e] u'] eqn:E; simpl in *; [apply IH|]; exact Hf.
Qed.

Lemma discard_preserves (P : userloads -> Prop) {A} (m : M A) :
  preserves P m -> preserves P (_ ← m; mret tt).
Proof.
  intros Hm u Hu. cbv [mbind M_bind mret M_ret]. specialize (Hm u Hu).
  destruct (m u) as [[a|e] u']; exact Hm.
Qed.

(** *** The cache invariant *)

Lemma inv_init (s : hdfstore) : cache_inv (UserLoads_init s).
Proof.
  split; unfold loads_valid, UserLoads_init; cbn [_loads heap].
  - intros i p H. rewrite lookup_empty in H. discriminate.
  - intros i p H. rewrite lookup_empty in H. discriminate.
  - intros q o H. rewrite lookup_nil in H. discriminate.
Qed.

Lemma inv_set_loads_insert (u : userloads) (i : Z) (p : nat) :
  cache_inv u -> mem i (user_ids u) = true -> (p < length (heap u))%nat ->
  cache_inv (set_loads (<[i := p]> (_loads u)) u).
Proof.
  intros [Hv Hh Hf] Hi Hp. unfold set_loads, loads_valid in *. split; cbn [_loads heap] in *.
  - intros j q Hj. simpl in Hj. apply lookup_insert_Some in Hj as [[<- _]|[_ Hj]];
      [exact Hi | exact (Hv j q Hj)].
  - intros j q Hj. simpl in Hj. apply lookup_insert_Some in Hj as [[_ <-]|[_ Hj]];
      [exact Hp | exact (Hh j q Hj)].
  - exact Hf.
Qed.

Lemma inv_set_loads_delete (u : userloads) (i : Z) :
  cache_inv u -> cache_inv (set_loads (delete i (_loads u)) u).
Proof.
  intros [Hv Hh Hf]. unfold set_loads, loads_valid in *. split; cbn [_loads heap] in *.
  - intros j q Hj. simpl in Hj. apply lookup_delete_Some in Hj as [_ Hj]. exact (Hv j q Hj).
  - intros j q Hj. simpl in Hj. apply lookup_delete_Some in Hj as [_ Hj]. exact (Hh j q Hj).
  - exact Hf.
Qed.

Lemma inv_after_read (u : userloads) (i : Z) :
  cache_inv u -> mem i (user_ids u) = true -> cache_inv (after_read u i).
Proof.
  intros [Hv Hh Hf] Hi. unfold after_read, loads_valid in *. split; cbn [_loads heap] in *.
  - intros j q Hj. simpl in Hj. apply lookup_insert_Some in Hj as [[<- _]|[_ Hj]];
      [exact Hi | exact (Hv j q Hj)].
  - intros j q Hj. simpl in Hj. rewrite length_app. simpl.
    apply lookup_insert_Some in Hj as [[_ <-]|[_ Hj]]; [lia|].
    specialize (Hh j q Hj). lia.
  - intros q o Hq. simpl in Hq. apply lookup_snoc_Some in Hq as [[_ Hq]|[_ <-]];
      [exact (Hf q o Hq) | eauto].
Qed.

Lemma read_inv (i : Z) : preserves cache_inv (read i).
Proof.
  intros u Hu. destruct (mem i (user_ids u)) eqn:H.
  - rewrite read_valid by exact H. exact (inv_after_read u i Hu H).
  - rewrite read_invalid by exact H. exact Hu.
Qed.

Lemma run_op_inv (u : userloads) (o : cache_op) :
  cache_inv u -> op_ok u o -> cache_inv (snd (run_op o u)).
Proof.
  intros Hu Ho. destruct o as [i|i p|i| |i]; simpl in *; cbv [mbind M_bind mret M_ret].
  - destruct (_loads u !! i) as [p|] eqn:E.
    + rewrite getitem_hit with (p := p) by exact E. exact Hu.
    + rewrite getitem_miss by exact E.
      pose proof (read_inv i u Hu) as Hr. destruct (read i u) as [[]]; exact Hr.
  - destruct (mem i (user_ids u)) eqn:H.
    + rewrite setitem_valid by exact H. exact (inv_set_loads_insert u i p Hu H Ho).
    + rewrite setitem_invalid by exact H. exact Hu.
  - pose proof (read_inv i u Hu) as Hr. destruct (read i u) as [[]]; exact Hr.
  - change (read_all u) with
      (iterM (fun user_id => _ ← read user_id; mret tt) (user_ids u) u).
    apply iterM_preserves; [|exact Hu].
    intros x. apply discard_preserves, read_inv.
  - destruct (mem i (user_ids u)) eqn:H; [|rewrite pop_invalid by exact H; exact Hu].
    destruct (_loads u !! i) as [p|] eqn:E.
    + rewrite pop_cached with (p := p) by assumption.
      exact (inv_set_loads_delete u i Hu).
    + rewrite pop_uncached by assumption.
      exact (inv_set_loads_delete _ i (inv_after_read u i Hu H)).
Qed.

Lemma reachable_inv (u : userloads) : reachable u -> cache_inv u.
Proof.
  induction 1 as [s|u o _ IH Ho]; [apply inv_init | exact (run_op_inv u o IH Ho)].
Qed.

(** C7. After [cache[i] = v] (an existing object [v]), [read i] discards
    [v]: it returns a fresh object holding the stored frame of [i] and
    caches it, and a following [getitem i] returns that object. *)
Theorem set_then_read_restores (u : userloads) (i : Z) (v : nat) :
  mem i (user_ids u) = true -> (v < length (heap u))%nat ->
  exists u1 p u2,
    setitem i v u = (Ok tt, u1) /\ getitem i u1 = (Ok v, u1) /\
    read i u1 = (Ok p, u2) /\ p <> v /\
    deref (heap u2) p = stored_load (_store u) i /\
    _loads u2 !! i = Some p /\ getitem i u2 = (Ok p, u2).
Proof.
  intros Hi Hv.
  set (u1 := set_loads (<[i := v]> (_loads u)) u).
  assert (Hi1 : mem i (user_ids u1) = true) by exact Hi.
  exists u1, (length (heap u1)), (after_read u1 i).
  assert (Hl : _loads (after_read u1 i) !! i = Some (length (heap u1)))
    by (simpl; apply lookup_insert_eq).
  repeat split.
  - exact (setitem_valid u i v Hi).
  - apply getitem_hit. simpl. apply lookup_insert_eq.
  - exact (read_valid u1 i Hi1).
  - simpl. lia.
  - simpl. apply deref_app_last.
  - exact Hl.
  - exact (getitem_hit _ i _ Hl).
Qed.

Lemma set_then_read_restores_witness :
  exists u1 p u2,
    setitem 1 0 (snd (getitem 2 sample)) = (Ok tt, u1) /\ getitem 1 u1 = (Ok 0%nat, u1) /\
    read 1 u1 = (Ok p, u2) /\ p <> 0%nat /\
    deref (heap u2) p = stored_load (_store (snd (getitem 2 sample))) 1 /\
    _loads u2 !! 1 = Some p /\ getitem 1 u2 = (Ok p, u2).
Proof.
  apply (set_then_read_restores (snd (getitem 2 sample)) 1 0);
    vm_compute; reflexivity.
Defined.

(** C8. In every reachable state, [getitem], [setitem] and [pop] of an id
    outside [user_ids] raise [KeyError] and leave the object untouched (in
    particular no store read is logged). *)
Theorem unknown_id_key_error (u : userloads) (i : Z) (v : nat) :
  reachable u -> mem i (user_ids u) = false ->
  getitem i u = (Err KeyError, u) /\ setitem i v u = (Err KeyError, u) /\
  pop i u = (Err KeyError, u).
Proof.
  intros Hr Hi. destruct (reachable_inv u Hr) as [Hv _ _].
  repeat split.
  - destruct (_loads u !! i) as [p|] eqn:E.
    + specialize (Hv i p E). congruence.
    + rewrite getitem_miss by exact E. exact (read_invalid u i Hi).
  - exact (setitem_invalid u i v Hi).
  - exact (pop_invalid u i Hi).
Qed.

Lemma unknown_id_key_error_witness :
  reachable (snd (run_op (OpGet 1) sample)) /\
  mem 4 (user_ids (snd (run_op (OpGet 1) sample))) = false /\
  getitem 4 (snd (run_op (OpGet 1) sample)) = (Err KeyError, snd (run_op (OpGet 1) sample)) /\
  setitem 4 0 (snd (run_op (OpGet 1) sample)) = (Err KeyError, snd (run_op (OpGet 1) sample)) /\
  pop 4 (snd (run_op (OpGet 1) sample)) = (Err KeyError, snd (run_op (OpGet 1) sample)).
Proof.
  assert (Hr : reachable (snd (run_op (OpGet 1) sample)))
    by (apply reach_step; [apply reach_init | exact I]).
  assert (Hm : mem 4 (user_ids (snd (run_op (OpGet 1) sample))) = false)
    by (vm_compute; reflexivity).
  split; [exact Hr|]. split; [exact Hm|].
  exact (unknown_id_key_error _ 4 0 Hr Hm).
Defined.

(** C9. Every state reached from construction through [getitem],
    [setitem], [read], [read_all] and [pop] has only valid user ids as keys
    of [_loads]. *)
Theorem loads_keys_valid (u : userloads) : reachable u -> loads_valid u.
Proof. intros Hr. exact (inv_valid u (reachable_inv u Hr)). Qed.

Lemma loads_keys_valid_witness :
  reachable (snd (run_op OpReadAll sample)) /\ loads_valid (snd (run_op OpReadAll sample)).
Proof.
  assert (Hr : reachable (snd (run_op OpReadAll sample)))
    by (apply reach_step; [apply reach_init | exact I]).
  split; [exact Hr | exact (loads_keys_valid _ Hr)].
Defined.

Lemma getitem_uncached_reads_once_witness :
  exists p u',
    getitem 2 sample = (Ok p, u') /\
    reads u' = reads sample ++ [2] /\
    _loads u' = <[2 := p]> (_loads sample) /\
    heap u' = heap sample ++ [Frame (stored_load (_store sample) 2)] /\
    deref (heap u') p = stored_load (_store sample) 2 /\
    (forall n, get_repeat n 2 u' = (Ok (repeat p n), u')).
Proof.
  apply getitem_uncached_reads_once; vm_compute; reflexivity.
Defined.

(** *** [total_load]: what the fold computes and what it writes *)

Lemma extends_refl (h : list obj) : extends h h.
Proof. intros q o H. exact H. Qed.

Lemma extends_trans (h1 h2 h3 : list obj) :
  extends h1 h2 -> extends h2 h3 -> extends h1 h3.
Proof. intros A B q o H. exact (B q o (A q o H)). Qed.

Lemma extends_snoc (h : list obj) (o : obj) : extends h (h ++ [o]).
Proof. intros q o' H. exact (lookup_app_l_Some _ _ _ _ H). Qed.

Lemma grows_refl (u : userloads) : cache_inv u -> grows u u.
Proof.
  intros [_ Hh Hf]. split; try reflexivity.
  - apply extends_refl.
  - intros i p H. exact H.
  - intros i p H. unfold get_value. rewrite H.
    destruct (lookup_lt_is_Some_2 (heap u) p (Hh i p H)) as [o Ho].
    destruct (Hf p o Ho) as [d ->]. unfold deref. rewrite Ho. reflexivity.
Qed.

Lemma grows_snoc (u0 u : userloads) (o : obj) :
  grows u0 u -> grows u0 (set_heap (heap u ++ [o]) u).
Proof.
  intros [Hs Hi Hp Hk Hf]. split; simpl; try assumption.
  - exact (extends_trans _ _ _ Hp (extends_snoc _ o)).
  - intros i p H. exact (lookup_app_l_Some _ _ _ _ (Hf i p H)).
Qed.

Lemma getitem_grows (u0 u : userloads) (i : Z) :
  grows u0 u -> mem i (_user_ids u0) = true ->
  exists p u', getitem i u = (Ok p, u') /\ grows u0 u' /\
    extends (heap u) (heap u') /\ heap u' !! p = Some (Frame (get_value u0 i)).
Proof.
  intros Hg Hi. destruct (_loads u !! i) as [p|] eqn:E.
  - exists p, u. rewrite (getitem_hit u i p E).
    split; [reflexivity|]. split; [exact Hg|].
    split; [apply extends_refl | exact (g_frames _ _ Hg i p E)].
  - assert (Hv : mem i (user_ids u) = true)
      by (unfold user_ids; rewrite (g_ids _ _ Hg); exact Hi).
    assert (E0 : _loads u0 !! i = None).
    { destruct (_loads u0 !! i) as [p|] eqn:E0; [|reflexivity].
      rewrite (g_keep _ _ Hg i p E0) in E. discriminate. }
    assert (Hval : get_value u0 i = stored_load (_store u) i).
    { unfold get_value. rewrite E0, (g_store _ _ Hg). reflexivity. }
    exists (length (heap u)), (after_read u i).
    rewrite getitem_miss by exact E. rewrite read_valid by exact Hv.
    destruct Hg as [Hs Hid Hp Hk Hf].
    split; [reflexivity|]. split; [split|split]; unfold after_read; simpl; try assumption.
    + exact (extends_trans _ _ _ Hp (extends_snoc _ _)).
    + intros j q Hj. destruct (decide (i = j)) as [<-|Hne].
      * rewrite E0 in Hj. discriminate.
      * rewrite lookup_insert_ne by exact Hne. exact (Hk j q Hj).
    + intros j q Hj. apply lookup_insert_Some in Hj as [[<- <-]|[_ Hj]].
      * rewrite list_lookup_middle by reflexivity. rewrite Hval. reflexivity.
      * exact (lookup_app_l_Some _ _ _ _ (Hf j q Hj)).
    + apply extends_snoc.
    + rewrite list_lookup_middle by reflexivity. rewrite Hval. reflexivity.
Qed.

Lemma slice_frame (u : userloads) (p : nat) (d : frame) (lo hi : Z) :
  heap u !! p = Some (Frame d) ->
  slice p lo hi u = (Ok (length (heap u)), set_heap (heap u ++ [View p lo hi]) u).
Proof. intros H. unfold slice. run_M. rewrite H. reflexivity. Qed.

(** The list comprehension of [total_load]: one view per id, onto the
    frame [getitem] gave for it. *)
Lemma slices_spec (u0 : userloads) (lo hi : Z) (ids : list Z) :
  forall u, grows u0 u -> Forall (fun i => mem i (_user_ids u0) = true) ids ->
  exists rs u',
    mapM (fun user => p ← getitem user; slice p lo hi) ids u = (Ok rs, u') /\
    grows u0 u' /\ extends (heap u) (heap u') /\
    Forall2 (fun i r => exists b, heap u' !! r = Some (View b lo hi) /\
                                  heap u' !! b = Some (Frame (get_value u0 i))) ids rs.
Proof.
  induction ids as [|i ids IH]; intros u Hg Hall.
  - exists [], u. split; [reflexivity|]. split; [exact Hg|].
    split; [apply extends_refl | constructor].
  - inversion Hall as [|? ? Hi Hrest]; subst.
    destruct (getitem_grows u0 u i Hg Hi) as (p & u1 & Hget & Hg1 & He1 & Hp1).
    set (u2 := set_heap (heap u1 ++ [View p lo hi]) u1).
    assert (Hg2 : grows u0 u2) by exact (grows_snoc u0 u1 _ Hg1).
    destruct (IH u2 Hg2 Hrest) as (rs & u' & Hm & Hg' & He' & Hf).
    exists (length (heap u1) :: rs), u'.
    simpl. cbv [mbind M_bind mret M_ret] in *. rewrite Hget.
    rewrite (slice_frame u1 p _ lo hi Hp1). fold u2. rewrite Hm.
    split; [reflexivity|]. split; [exact Hg'|]. split.
    + exact (extends_trans _ _ _ He1 (extends_trans _ _ _ (extends_snoc _ _) He')).
    + constructor; [|exact Hf]. exists p. split.
      * apply He'. simpl. apply list_lookup_middle. reflexivity.
      * apply He'. simpl. exact (lookup_app_l_Some _ _ _ _ Hp1).
Qed.

Lemma bind_Ok {A B} (m : M A) (f : A -> M B) (u : userloads) (a : A) (u' : userloads) :
  m u = (Ok a, u') -> (m ≫= f) u = f a u'.
Proof. intros H. cbv [mbind M_bind]. rewrite H. reflexivity. Qed.

Lemma copy_eq (u : userloads) (p : nat) :
  copy p u = (Ok (length (heap u)), set_heap (heap u ++ [Frame (deref (heap u) p)]) u).
Proof. reflexivity. Qed.

Lemma set_heap_id (u : userloads) : set_heap (heap u) u = u.
Proof. destruct u. reflexivity. Qed.

(** The loop [for single_series in series[1:]: total += single_series]
    rewrites only the object [total], with the left fold of the aligned
    sums. *)
Lemma iadd_fold (f : Z -> frame) (lo hi : Z) (t : nat) (h0 : list obj)
    (ids : list Z) (rs : list nat) :
  Forall2 (fun i r => r <> t /\ exists b, b <> t /\ h0 !! r = Some (View b lo hi) /\
                                         h0 !! b = Some (Frame (f i))) ids rs ->
  forall u acc, (forall q, q <> t -> heap u !! q = h0 !! q) ->
  heap u !! t = Some (Frame acc) ->
  iterM (fun single_series => iadd t single_series) rs u =
  (Ok tt, set_heap (<[t := Frame (fold_left align_add
                                    (map (fun i => restrict (f i) lo hi) ids) acc)]> (heap u)) u).
Proof.
  induction 1 as [|i r ids rs [Hrt (b & Hbt & Hr & Hb)] _ IH]; intros u acc Hq Ht.
  - simpl. rewrite list_insert_id by exact Ht. rewrite set_heap_id. reflexivity.
  - set (acc1 := align_add acc (restrict (f i) lo hi)).
    set (u1 := set_heap (<[t := Frame acc1]> (heap u)) u).
    assert (Hi : iadd t r u = (Ok tt, u1)).
    { unfold iadd, modify, u1, acc1. f_equal. f_equal.
      unfold write_obj, deref. rewrite Ht.
      rewrite (Hq r Hrt), Hr, (Hq b Hbt), Hb. reflexivity. }
    assert (Hlt : (t < length (heap u))%nat) by exact (lookup_lt_Some _ _ _ Ht).
    simpl. rewrite (bind_Ok _ _ u tt u1 Hi).
    rewrite (IH u1 acc1).
    + unfold u1. simpl. rewrite list_insert_insert_eq. reflexivity.
    + intros q Hne. unfold u1. simpl. rewrite list_lookup_insert_ne by congruence.
      exact (Hq q Hne).
    + unfold u1. simpl. apply list_lookup_insert_eq. exact Hlt.
Qed.

Lemma grows_refl_cf (u : userloads) : cached_frames u -> grows u u.
Proof.
  intros Hc. split; try reflexivity.
  - apply extends_refl.
  - intros i p H. exact H.
  - intros i p H. destruct (Hc i p H) as [d Hd]. unfold get_value. rewrite H.
    unfold deref. rewrite Hd. reflexivity.
Qed.

Lemma cache_inv_cached_frames (u : userloads) : cache_inv u -> cached_frames u.
Proof.
  intros [_ Hh Hf] i p H.
  destruct (lookup_lt_is_Some_2 (heap u) p (Hh i p H)) as [o Ho].
  destruct (Hf p o Ho) as [d ->]. eauto.
Qed.

Lemma grows_cached_frames (u0 u : userloads) : grows u0 u -> cached_frames u.
Proof. intros Hg i p H. exists (get_value u0 i). exact (g_frames _ _ Hg i p H). Qed.

(** [total_load] over valid ids, from a state whose cached ids map to
    frames: the result is a fresh frame holding the left fold, and the
    state only grows in the sense of [grows]. *)
Lemma total_load_spec_cf (u0 : userloads) (i0 : Z) (rest : list Z) (lo hi : Z) :
  cached_frames u0 -> Forall (fun i => mem i (user_ids u0) = true) (i0 :: rest) ->
  exists t uf, total_load (i0 :: rest) (lo, hi) u0 = (Ok t, uf) /\
    heap uf !! t = Some (Frame
      (fold_left align_add (map (fun i => restrict (get_value u0 i) lo hi) rest)
                 (restrict (get_value u0 i0) lo hi))) /\
    grows u0 uf /\ (length (heap u0) <= t)%nat /\
    (forall i p, _loads uf !! i = Some p -> p <> t).
Proof.
  intros Hinv Hall.
  destruct (slices_spec u0 lo hi (i0 :: rest) u0 (grows_refl_cf u0 Hinv) Hall)
    as (rs & u' & Hm & Hg & He & Hf).
  inversion Hf as [|? r0 ? rs' (b0 & Hr0 & Hb0) Hf']; subst.
  set (acc0 := restrict (get_value u0 i0) lo hi).
  set (t := length (heap u')).
  set (u'' := set_heap (heap u' ++ [Frame acc0]) u').
  assert (Hc : copy r0 u' = (Ok t, u'')).
  { rewrite copy_eq. unfold u'', acc0, t. do 4 f_equal.
    unfold deref. rewrite Hr0, Hb0. reflexivity. }
  assert (Hlt : forall q o, heap u' !! q = Some o -> q <> t).
  { intros q o Hq. apply lookup_lt_Some in Hq. unfold t. lia. }
  assert (Hf2 : Forall2 (fun i r => r <> t /\ exists b, b <> t /\
                 heap u'' !! r = Some (View b lo hi) /\
                 heap u'' !! b = Some (Frame (get_value u0 i))) rest rs').
  { eapply Forall2_impl; [exact Hf'|]. intros i r (b & Hr & Hb).
    split; [exact (Hlt r _ Hr)|]. exists b. split; [exact (Hlt b _ Hb)|].
    unfold u''; simpl. split; apply lookup_app_l_Some; assumption. }
  assert (Ht : heap u'' !! t = Some (Frame acc0)).
  { unfold u''; simpl. apply list_lookup_middle. reflexivity. }
  pose proof (iadd_fold (get_value u0) lo hi t (heap u'') rest rs' Hf2 u'' acc0
                (fun q _ => eq_refl) Ht) as Hit.
  set (fin := fold_left align_add (map (fun i => restrict (get_value u0 i) lo hi) rest) acc0).
  fold fin in Hit.
  set (uf := set_heap (<[t := Frame fin]> (heap u'')) u'').
  exists t, uf.
  assert (Hlen : (t < length (heap u''))%nat) by exact (lookup_lt_Some _ _ _ Ht).
  assert (Hold : forall q o, heap u' !! q = Some o -> heap uf !! q = Some o).
  { intros q o Hq. unfold uf. simpl.
    rewrite list_lookup_insert_ne by (apply not_eq_sym; exact (Hlt q _ Hq)).
    exact (lookup_app_l_Some _ _ _ _ Hq). }
  split; [|split; [|split; [|split]]].
  - unfold total_load. cbn [fst snd]. rewrite (bind_Ok _ _ u0 _ u' Hm).
    cbn beta iota. rewrite (bind_Ok _ _ u' t u'' Hc).
    rewrite (bind_Ok _ _ u'' tt uf Hit). reflexivity.
  - unfold uf. simpl. apply list_lookup_insert_eq. exact Hlen.
  - destruct Hg as [Hs Hi Hp Hk Hfr]. split; try assumption.
    + intros q o Hq. exact (Hold q o (Hp q o Hq)).
    + intros i p H. exact (Hold p _ (Hfr i p H)).
  - unfold t. pose proof (He (pred (length (heap u0)))) as _.
    destruct (length (heap u0)) as [|n] eqn:E; [lia|].
    assert (Hn : is_Some (heap u0 !! n)) by (apply lookup_lt_is_Some_2; lia).
    destruct Hn as [o Ho]. apply He, lookup_lt_Some in Ho. lia.
  - intros i p H. exact (Hlt p _ (g_frames _ _ Hg i p H)).
Qed.

(** [total_load] over valid ids, from a state satisfying the cache
    invariant: the result is a fresh frame holding the left fold, and the
    cached objects keep their contents. *)
Lemma total_load_spec (u0 : userloads) (i0 : Z) (rest : list Z) (lo hi : Z) :
  cache_inv u0 -> Forall (fun i => mem i (user_ids u0) = true) (i0 :: rest) ->
  exists t uf, total_load (i0 :: rest) (lo, hi) u0 = (Ok t, uf) /\
   deref (heap uf) t =
      fold_left align_add (map (fun i => restrict (get_value u0 i) lo hi) rest)
                (restrict (get_value u0 i0) lo hi) /\
   (forall i p, _loads u0 !! i = Some p -> _loads uf !! i = Some p) /\
   (forall i p, _loads uf !! i = Some p -> deref (heap uf) p = get_value u0 i) /\
   (forall i p, _loads uf !! i = Some p -> p <> t).
Proof.
  intros Hinv Hall.
  destruct (total_load_spec_cf u0 i0 rest lo hi (cache_inv_cached_frames u0 Hinv) Hall)
    as (t & uf & Heq & Ht & Hg & _ & Hn).
  exists t, uf. split; [exact Heq|]. split; [|split; [|split]].
  - unfold deref. rewrite Ht. reflexivity.
  - exact (g_keep _ _ Hg).
  - intros i p H. unfold deref. rewrite (g_frames _ _ Hg i p H). reflexivity.
  - exact Hn.
Qed.

(** C6 (as the code does it). For valid ids [i0 :: rest], [total_load]
    returns the left fold, in the order of the list, of the index-aligned
    float additions, starting from (a copy of) the restricted frame of
    [i0]. *)
Theorem total_load_left_fold (u : userloads) (i0 : Z) (rest : list Z) (lo hi : Z) :
  reachable u -> Forall (fun i => mem i (user_ids u) = true) (i0 :: rest) ->
  total_load_value (i0 :: rest) (lo, hi) u =
  Ok (fold_left align_add (map (fun i => restrict (get_value u i) lo hi) rest)
                (restrict (get_value u i0) lo hi)).
Proof.
  intros Hr Hall.
  destruct (total_load_spec u i0 rest lo hi (reachable_inv u Hr) Hall)
    as (t & uf & Heq & Hv & _).
  unfold total_load_value. rewrite Heq, Hv. reflexivity.
Qed.

Lemma total_load_left_fold_witness :
  reachable sample /\ Forall (fun i => mem i (user_ids sample) = true) [1; 2; 3] /\
  total_load_value [1; 2; 3] (1075593600, 1075597200) sample =
  Ok (fold_left align_add
        (map (fun i => restrict (get_value sample i) 1075593600 1075597200) [2; 3])
        (restrict (get_value sample 1) 1075593600 1075597200)).
Proof.
  assert (Hr : reachable sample) by apply reach_init.
  assert (Hall : Forall (fun i => mem i (user_ids sample) = true) [1; 2; 3])
    by repeat constructor.
  split; [exact Hr|]. split; [exact Hall|].
  exact (total_load_left_fold sample 1 [2; 3] 1075593600 1075597200 Hr Hall).
Defined.

(** C6 fails as stated: the float additions are not associative, so the
    same three valid users summed in another order give a different total
    (0.1 + 0.2 + 0.3 versus 0.2 + 0.3 + 0.1 at the first timestamp). *)
Lemma total_load_order_counterexample :
  total_load_value [1; 2; 3] (1075593600, 1075597200) sample <>
  total_load_value [2; 3; 1] (1075593600, 1075597200) sample.
Proof.
  intros H. apply (f_equal frame_bits) in H. vm_compute in H. discriminate.
Qed.

(** C10. [total_load] over valid ids from a reachable state keeps every
    cached object in place, and afterwards every cached object (those
    read on the way included) holds what [getitem] gave for its id
    before the call; the returned total is a different object. *)
Theorem total_load_keeps_cached_values (u : userloads) (i0 : Z) (rest : list Z) (lo hi : Z) :
  reachable u -> Forall (fun i => mem i (user_ids u) = true) (i0 :: rest) ->
  exists t uf, total_load (i0 :: rest) (lo, hi) u = (Ok t, uf) /\
    (forall i p, _loads u !! i = Some p -> _loads uf !! i = Some p) /\
    (forall i p, _loads uf !! i = Some p -> deref (heap uf) p = get_value u i) /\
    (forall i p, _loads uf !! i = Some p -> p <> t).
Proof.
  intros Hr Hall.
  destruct (total_load_spec u i0 rest lo hi (reachable_inv u Hr) Hall)
    as (t & uf & Heq & _ & Hk & Hc & Hn).
  exists t, uf. split; [exact Heq|]. split; [exact Hk|]. split; [exact Hc | exact Hn].
Qed.

Lemma total_load_keeps_cached_values_witness :
  exists t uf, total_load [1; 2] (1075593600, 1075597200) (snd (run_op (OpGet 2) sample)) = (Ok t, uf) /\
    (forall i p, _loads (snd (run_op (OpGet 2) sample)) !! i = Some p -> _loads uf !! i = Some p) /\
    (forall i p, _loads uf !! i = Some p ->
       deref (heap uf) p = get_value (snd (run_op (OpGet 2) sample)) i) /\
    (forall i p, _loads uf !! i = Some p -> p <> t).
Proof.
  apply total_load_keeps_cached_values.
  - apply reach_step; [apply reach_init | exact I].
  - repeat constructor.
Defined.

(** *** [mean_experiment_load_for_user_subset] *)

Lemma shuffle_loop_length {A} (fuel i : nat) (x : list A) (st : MT19937.mt_state) :
  length (fst (MT19937.shuffle_loop fuel i x st)) = length x.
Proof.
  revert i x st. induction fuel as [|fuel IH]; intros i x st; [reflexivity|].
  simpl. destruct i as [|i']; [reflexivity|].
  destruct (MT19937.rk_interval (Z.of_nat (S i')) st) as [j st'].
  rewrite IH. destruct (x !! S i'), (x !! Z.to_nat j); rewrite ?length_insert; reflexivity.
Qed.

Lemma random_identifier_subset_length (g : MT19937.mt_state) (all_ids : list Z)
    (count : Z) (seed : option Z) (ids : list Z) :
  random_identifier_subset g all_ids count seed = Ok ids -> 0 <= count ->
  Z.of_nat (length ids) = Z.min count (Z.of_nat (length all_ids)).
Proof.
  intros H Hc. unfold random_identifier_subset, MT19937.permutation in H.
  destruct (_ || _) in H; [discriminate|]. injection H as <-.
  unfold py_slice_to, MT19937.shuffle. replace (0 <=? count) with true by lia.
  rewrite length_firstn, shuffle_loop_length. lia.
Qed.

(** C4 (as the code does it). Once the subset [user_ids0] is drawn (the
    first [count] ids of the seeded permutation, Python slice semantics),
    each per-period total is divided by [len(user_ids0)], the number of
    ids actually drawn: [min(count, n)] for [count >= 0], [n] being the
    number of ids. [count = 0] draws nothing and raises [IndexError]. *)
Theorem mean_divides_by_drawn_count (g : MT19937.mt_state) (count : Z)
    (seed : option Z) (u : userloads) (user_ids0 : list Z) :
  random_identifier_subset g (user_ids u) count seed = Ok user_ids0 ->
  mean_experiment_load_for_user_subset g count seed u =
    (let '(r, u') := total_load_in_experiment_periods user_ids0 u in
     match r with
     | Ok totals =>
         (Ok (map (fun l => div_frame (deref (heap u') l) (length user_ids0)) totals), u')
     | Err e => (Err e, u')
     end) /\
  (0 <= count -> Z.of_nat (length user_ids0) = Z.min count (Z.of_nat (length (user_ids u)))) /\
  (count = 0 -> fst (mean_experiment_load_for_user_subset g count seed u) = Err IndexError).
Proof.
  intros H.
  assert (Heq : mean_experiment_load_for_user_subset g count seed u =
    (let '(r, u') := total_load_in_experiment_periods user_ids0 u in
     match r with
     | Ok totals =>
         (Ok (map (fun l => div_frame (deref (heap u') l) (length user_ids0)) totals), u')
     | Err e => (Err e, u')
     end)).
  { unfold mean_experiment_load_for_user_subset. cbv [mbind M_bind gets mret M_ret raise].
    cbn beta. rewrite H.
    destruct (total_load_in_experiment_periods user_ids0 u) as [[totals|e] u'];
      reflexivity. }
  split; [exact Heq|]. split.
  - intros Hc. exact (random_identifier_subset_length _ _ _ _ _ H Hc).
  - intros Hc. pose proof (random_identifier_subset_length _ _ _ _ _ H ltac:(lia)) as Hl.
    rewrite Hc in Hl. destruct user_ids0; [|simpl in Hl; lia].
    rewrite Heq. reflexivity.
Qed.

Lemma mean_divides_by_drawn_count_witness :
  random_identifier_subset (MT19937.mt19937_seed 0) (user_ids sample) 5 (Some 42) = Ok [1; 2; 3] /\
  (mean_experiment_load_for_user_subset (MT19937.mt19937_seed 0) 5 (Some 42) sample =
    (let '(r, u') := total_load_in_experiment_periods [1; 2; 3] sample in
     match r with
     | Ok totals =>
         (Ok (map (fun l => div_frame (deref (heap u') l) (length [1; 2; 3])) totals), u')
     | Err e => (Err e, u')
     end) /\
  (0 <= 5 -> Z.of_nat (length [1; 2; 3]) = Z.min 5 (Z.of_nat (length (user_ids sample)))) /\
  (5 = 0 -> fst (mean_experiment_load_for_user_subset (MT19937.mt19937_seed 0) 5 (Some 42) sample) = Err IndexError)).
Proof.
  assert (H : random_identifier_subset (MT19937.mt19937_seed 0) (user_ids sample) 5 (Some 42) = Ok [1; 2; 3])
    by (vm_compute; reflexivity).
  split; [exact H|].
  exact (mean_divides_by_drawn_count (MT19937.mt19937_seed 0) 5 (Some 42) sample [1; 2; 3] H).
Defined.

(** C4 fails as stated: asking for 5 users of a store holding 3 draws all
    3 and divides the totals by 3, not by the requested 5. *)
Lemma mean_divides_by_count_counterexample :
  fst (mean_experiment_load_for_user_subset (MT19937.mt19937_seed 0) 5 (Some 42) sample) <>
  fst (mean_subset_load_by_count (MT19937.mt19937_seed 0) 5 (Some 42) sample).
Proof.
  intros H. apply (f_equal frames_bits) in H. vm_compute in H. discriminate.
Qed.

(** C5. With a seed given, the drawn subset, and the whole mean computed
    from it, do not depend on numpy's global generator: they are functions
    of the seed, the requested count and the order of the user ids (and of
    the object's state for the loads). *)
Theorem random_identifier_subset_deterministic (g1 g2 : MT19937.mt_state)
    (all_ids : list Z) (count seed : Z) (u : userloads) :
  random_identifier_subset g1 all_ids count (Some seed) =
    random_identifier_subset g2 all_ids count (Some seed) /\
  random_identifier_subset g1 all_ids count (Some seed) =
    match MT19937.permutation seed all_ids with
    | Some perm => Ok (py_slice_to perm count)
    | None => Err ValueError
    end /\
  mean_experiment_load_for_user_subset g1 count (Some seed) u =
    mean_experiment_load_for_user_subset g2 count (Some seed) u.
Proof. split; [reflexivity | split; reflexivity]. Qed.

(* ------------------------------------------------------------------ *)
(** ** Further properties of the module *)
(* ------------------------------------------------------------------ *)

(** *** Helpers *)

Lemma mem_In (i : Z) (l : list Z) : mem i l = true <-> In i l.
Proof.
  unfold mem. rewrite existsb_exists. split.
  - intros (x & Hx & E). apply Z.eqb_eq in E. subst. exact Hx.
  - intros H. exists i. split; [exact H | apply Z.eqb_refl].
Qed.

Lemma read_step (u : userloads) (i : Z) :
  mem i (user_ids u) = true ->
  (_ ← read i; mret tt) u = (Ok tt, after_read u i).
Proof. intros H. cbv [mbind M_bind mret M_ret]. rewrite read_valid by exact H. reflexivity. Qed.

(** The loop [for user_id in ids: self.read(user_id)] over valid ids. *)
Lemma read_list_spec (ids : list Z) :
  forall u, Forall (fun i => mem i (user_ids u) = true) ids ->
  exists u', iterM (fun user_id => _ ← read user_id; mret tt) ids u = (Ok tt, u') /\
    _store u' = _store u /\ _user_ids u' = _user_ids u /\
    reads u' = reads u ++ ids /\ extends (heap u) (heap u') /\
    (forall i, In i ids -> exists p, _loads u' !! i = Some p /\
        (length (heap u) <= p)%nat /\
        heap u' !! p = Some (Frame (stored_load (_store u) i))) /\
    (forall i, ~ In i ids -> _loads u' !! i = _loads u !! i).
Proof.
  induction ids as [|a ids IH]; intros u Hall.
  - exists u. rewrite app_nil_r. split; [reflexivity|].
    split; [reflexivity|]. split; [reflexivity|]. split; [reflexivity|].
    split; [apply extends_refl|]. split; [intros i []|]. intros i _. reflexivity.
  - inversion Hall as [|? ? Ha Hrest]; subst.
    destruct (IH (after_read u a) Hrest)
      as (u' & Hit & Hs & Hi & Hr & He & Hin & Hout).
    exists u'. simpl iterM. rewrite (bind_Ok _ _ u tt (after_read u a) (read_step u a Ha)).
    cbn [_store _user_ids reads heap after_read] in Hs, Hi, Hr, He, Hin.
    split; [exact Hit|]. split; [exact Hs|]. split; [exact Hi|].
    split; [rewrite Hr, <- app_assoc; reflexivity|].
    split; [exact (extends_trans _ _ _ (extends_snoc _ _) He)|]. split.
    + intros i Hi'. destruct (in_dec Z.eq_dec i ids) as [Hid|Hnid].
      * destruct (Hin i Hid) as (p & Hp & Hle & Hh). exists p.
        rewrite length_app in Hle. simpl in Hle.
        split; [exact Hp|]. split; [lia | exact Hh].
      * destruct Hi' as [<-|Hid]; [|contradiction].
        exists (length (heap u)). rewrite (Hout a Hnid). simpl.
        split; [apply lookup_insert_eq|]. split; [lia|].
        apply He. apply list_lookup_middle. reflexivity.
    + intros i Hni. rewrite (Hout i (fun H => Hni (or_intror H))). simpl.
      apply lookup_insert_ne. intros ->. apply Hni. left. reflexivity.
Qed.

Lemma read_all_spec (u : userloads) :
  exists u', read_all u = (Ok tt, u') /\
    _store u' = _store u /\ _user_ids u' = _user_ids u /\
    reads u' = reads u ++ user_ids u /\ extends (heap u) (heap u') /\
    (forall i, In i (user_ids u) -> exists p, _loads u' !! i = Some p /\
        (length (heap u) <= p)%nat /\
        heap u' !! p = Some (Frame (stored_load (_store u) i))) /\
    (forall i, ~ In i (user_ids u) -> _loads u' !! i = _loads u !! i).
Proof.
  apply read_list_spec. apply List.Forall_forall. intros i Hi. apply mem_In. exact Hi.
Qed.

(** Every operation keeps the store and the id set. *)
Lemma run_op_keeps (S : hdfstore) (L : list Z) (o : cache_op) :
  preserves (fun v => _store v = S /\ _user_ids v = L) (run_op o).
Proof.
  assert (Hr : forall i, preserves (fun v => _store v = S /\ _user_ids v = L) (read i)).
  { intros i u Hu. destruct (mem i (user_ids u)) eqn:H.
    - rewrite read_valid by exact H. exact Hu.
    - rewrite read_invalid by exact H. exact Hu. }
  intros u Hu. destruct o as [i|i p|i| |i]; simpl; cbv [mbind M_bind mret M_ret].
  - destruct (_loads u !! i) as [p|] eqn:E.
    + rewrite getitem_hit with (p := p) by exact E. exact Hu.
    + rewrite getitem_miss by exact E.
      pose proof (Hr i u Hu) as H. destruct (read i u) as [[]]; exact H.
  - destruct (mem i (user_ids u)) eqn:H.
    + rewrite setitem_valid by exact H. exact Hu.
    + rewrite setitem_invalid by exact H. exact Hu.
  - pose proof (Hr i u Hu) as H. destruct (read i u) as [[]]; exact H.
  - change (read_all u) with
      (iterM (fun user_id => _ ← read user_id; mret tt) (user_ids u) u).
    apply iterM_preserves; [|exact Hu].
    intros x. apply discard_preserves, Hr.
  - destruct (mem i (user_ids u)) eqn:H; [|rewrite pop_invalid by exact H; exact Hu].
    destruct (_loads u !! i) as [p|] eqn:E.
    + rewrite pop_cached with (p := p) by assumption. exact Hu.
    + rewrite pop_uncached by assumption. exact Hu.
Qed.


Lemma interval_mask_nonneg (mx : Z) : 0 <= mx -> 0 <= MT19937.interval_mask mx.
Proof.
  intros H. unfold MT19937.interval_mask.
  repeat (apply Z.lor_nonneg; split; [|apply Z.shiftr_nonneg]); exact H.
Qed.

Lemma interval_loop_range (fuel : nat) (mx mask : Z) (st : MT19937.mt_state) :
  0 <= mx -> 0 <= mask -> 0 <= fst (MT19937.interval_loop fuel mx mask st) <= mx.
Proof.
  intros Hmx Hm. revert st. induction fuel as [|f IH]; intros st; simpl; [lia|].
  destruct (MT19937.next32 st) as [r st'].
  destruct (Z.land r mask <=? mx) eqn:E; [|apply IH].
  simpl. apply Z.leb_le in E. split; [|exact E].
  apply Z.land_nonneg. right. exact Hm.
Qed.

Lemma rk_interval_range (mx : Z) (st : MT19937.mt_state) :
  0 <= mx -> 0 <= fst (MT19937.rk_interval mx st) <= mx.
Proof.
  intros H. unfold MT19937.rk_interval. destruct (mx =? 0); [simpl; lia|].
  apply interval_loop_range; [exact H | apply interval_mask_nonneg, H].
Qed.

(** *** [UserLoads.read_all] *)

(** X1. [read_all] never raises: it reads every id of [user_ids] from the
    store once, in the order of [user_ids], and changes neither the store
    nor the id set. *)
Theorem read_all_reads_every_id (u : userloads) :
  exists u', read_all u = (Ok tt, u') /\ reads u' = reads u ++ user_ids u /\
    user_ids u' = user_ids u /\ _store u' = _store u.
Proof.
  destruct (read_all_spec u) as (u' & H & Hs & Hi & Hr & _).
  exists u'. split; [exact H|]. split; [exact Hr|]. split; [exact Hi | exact Hs].
Qed.

(** X2. After [read_all] every valid id is cached with a fresh object
    holding its stored frame (earlier assignments through [__setitem__]
    are discarded), so a following [getitem] of it reads nothing; entries
    under other keys are left as they were. *)
Theorem read_all_refreshes_cache (u : userloads) :
  exists u', read_all u = (Ok tt, u') /\
    (forall i, mem i (user_ids u) = true -> exists p,
        _loads u' !! i = Some p /\ (length (heap u) <= p)%nat /\
        deref (heap u') p = stored_load (_store u) i /\ getitem i u' = (Ok p, u')) /\
    (forall i, mem i (user_ids u) = false -> _loads u' !! i = _loads u !! i).
Proof.
  destruct (read_all_spec u) as (u' & H & _ & _ & _ & _ & Hin & Hout).
  exists u'. split; [exact H|]. split.
  - intros i Hi. apply mem_In in Hi. destruct (Hin i Hi) as (p & Hp & Hle & Hh).
    exists p. split; [exact Hp|]. split; [exact Hle|]. split.
    + unfold deref. rewrite Hh. reflexivity.
    + exact (getitem_hit u' i p Hp).
  - intros i Hi. apply Hout. intros Hin'. apply mem_In in Hin'. congruence.
Qed.

(** *** [UserLoads.pop] *)

(** X3. [pop] of a valid id returns an object holding what [getitem]
    would have returned, removes the id from the cache only (other
    entries and [user_ids] stay), so the next [getitem] of the id reads
    the stored frame again into a fresh object. *)
Theorem pop_returns_and_uncaches (u : userloads) (i : Z) :
  mem i (user_ids u) = true ->
  exists p u1, pop i u = (Ok p, u1) /\ deref (heap u1) p = get_value u i /\
    _loads u1 !! i = None /\ (forall j, j <> i -> _loads u1 !! j = _loads u !! j) /\
    user_ids u1 = user_ids u /\
    getitem i u1 = (Ok (length (heap u1)), after_read u1 i) /\
    deref (heap (after_read u1 i)) (length (heap u1)) = stored_load (_store u) i.
Proof.
  intros Hi. destruct (_loads u !! i) as [q|] eqn:E.
  - exists q, (set_loads (delete i (_loads u)) u).
    rewrite (pop_cached u i q Hi E). split; [reflexivity|].
    split; [unfold get_value; rewrite E; reflexivity|].
    split; [apply lookup_delete_eq|]. split; [intros j Hj; apply lookup_delete_ne; congruence|].
    split; [reflexivity|]. split.
    + rewrite getitem_miss by apply lookup_delete_eq. apply read_valid. exact Hi.
    + apply deref_app_last.
  - exists (length (heap u)), (set_loads (delete i (_loads (after_read u i))) (after_read u i)).
    rewrite (pop_uncached u i Hi E). split; [reflexivity|].
    split; [unfold get_value; rewrite E; apply deref_app_last|].
    split; [apply lookup_delete_eq|].
    split; [intros j Hj; simpl; rewrite lookup_delete_ne by congruence;
            apply lookup_insert_ne; congruence|].
    split; [reflexivity|]. split.
    + rewrite getitem_miss by apply lookup_delete_eq. apply read_valid. exact Hi.
    + apply deref_app_last.
Qed.

Lemma pop_returns_and_uncaches_witness :
  mem 2 (user_ids (snd (getitem 2 sample))) = true /\
  exists p u1, pop 2 (snd (getitem 2 sample)) = (Ok p, u1) /\
    deref (heap u1) p = get_value (snd (getitem 2 sample)) 2 /\
    _loads u1 !! 2 = None /\
    (forall j, j <> 2 -> _loads u1 !! j = _loads (snd (getitem 2 sample)) !! j) /\
    user_ids u1 = user_ids (snd (getitem 2 sample)) /\
    getitem 2 u1 = (Ok (length (heap u1)), after_read u1 2) /\
    deref (heap (after_read u1 2)) (length (heap u1)) =
      stored_load (_store (snd (getitem 2 sample))) 2.
Proof.
  assert (H : mem 2 (user_ids (snd (getitem 2 sample))) = true) by (vm_compute; reflexivity).
  split; [exact H | exact (pop_returns_and_uncaches _ 2 H)].
Defined.

(** X4. [pop] of a valid id reads the store only when the id is not
    cached, and then exactly once. *)
Theorem pop_reads_only_uncached (u : userloads) (i : Z) :
  mem i (user_ids u) = true ->
  reads (snd (pop i u)) =
    reads u ++ match _loads u !! i with Some _ => [] | None => [i] end.
Proof.
  intros Hi. destruct (_loads u !! i) as [q|] eqn:E.
  - rewrite (pop_cached u i q Hi E). simpl. rewrite app_nil_r. reflexivity.
  - rewrite (pop_uncached u i Hi E). reflexivity.
Qed.

Lemma pop_reads_only_uncached_witness :
  mem 1 (user_ids sample) = true /\
  reads (snd (pop 1 sample)) =
    reads sample ++ match _loads sample !! 1 with Some _ => [] | None => [1] end.
Proof.
  assert (H : mem 1 (user_ids sample) = true) by (vm_compute; reflexivity).
  split; [exact H | exact (pop_reads_only_uncached sample 1 H)].
Defined.

(** *** The id set and [__len__] *)



(** X6. No operation changes the id set or the store: in particular
    [pop] removes a load, never an id. *)
Theorem run_op_keeps_user_ids (u : userloads) (o : cache_op) :
  user_ids (snd (run_op o u)) = user_ids u /\ _store (snd (run_op o u)) = _store u.
Proof.
  destruct (run_op_keeps (_store u) (_user_ids u) o u (conj eq_refl eq_refl)) as [Hs Hi].
  split; [exact Hi | exact Hs].
Qed.

(** *** Drawing the subset *)

(** X7. Without a seed, the subset is the one drawn with a seed taken in
    [1, 65535] from numpy's global generator; so this path never raises
    the [ValueError] of an out-of-range seed. *)
Theorem random_subset_seed_none (g : MT19937.mt_state) (all_ids : list Z) (num_users : Z) :
  exists s, 1 <= s <= 65535 /\
    random_identifier_subset g all_ids num_users None =
      random_identifier_subset g all_ids num_users (Some s) /\
    random_identifier_subset g all_ids num_users None =
      Ok (py_slice_to (fst (MT19937.shuffle all_ids (MT19937.mt19937_seed s))) num_users).
Proof.
  pose proof (rk_interval_range 65534 g ltac:(lia)) as Hr.
  exists (1 + fst (MT19937.rk_interval 65534 g)). split; [lia|]. split; [reflexivity|].
  unfold random_identifier_subset, MT19937.permutation, MT19937.MASK32.
  replace ((1 + fst (MT19937.rk_interval 65534 g) <? 0) ||
           (4294967295 <? 1 + fst (MT19937.rk_interval 65534 g))) with false by lia.
  reflexivity.
Qed.

Lemma shuffle_loop_perm {A} (fuel i : nat) (x : list A) (st : MT19937.mt_state) :
  fst (MT19937.shuffle_loop fuel i x st) ≡ₚ x.
Proof.
  revert i x st. induction fuel as [|fuel IH]; intros i x st; [reflexivity|].
  simpl. destruct i as [|i']; [reflexivity|].
  destruct (MT19937.rk_interval (Z.of_nat (S i')) st) as [j st'].
  rewrite IH. destruct (x !! S i') as [xi|] eqn:Ei; [|reflexivity].
  destruct (x !! Z.to_nat j) as [xj|] eqn:Ej; [|reflexivity].
  exact (Permutation_insert_swap x (S i') (Z.to_nat j) xi xj Ei Ej).
Qed.

Lemma py_slice_to_take {A} (l : list A) (n : Z) : exists k, py_slice_to l n = take k l.
Proof. unfold py_slice_to. destruct (0 <=? n); eexists; reflexivity. Qed.

Lemma subset_draw (g : MT19937.mt_state) (all_ids : list Z) (num_users : Z)
    (seed : option Z) :
  seed_ok seed -> exists s,
    random_identifier_subset g all_ids num_users seed =
      Ok (py_slice_to (fst (MT19937.shuffle all_ids (MT19937.mt19937_seed s))) num_users).
Proof.
  intros Hs. unfold random_identifier_subset, MT19937.permutation.
  destruct seed as [s|].
  - exists s. simpl in Hs. unfold MT19937.MASK32 in *.
    replace ((s <? 0) || (4294967295 <? s)) with false by lia. reflexivity.
  - pose proof (rk_interval_range 65534 g ltac:(lia)) as Hr.
    exists (1 + fst (MT19937.rk_interval 65534 g)). unfold MT19937.MASK32.
    replace ((1 + fst (MT19937.rk_interval 65534 g) <? 0) ||
             (4294967295 <? 1 + fst (MT19937.rk_interval 65534 g))) with false by lia.
    reflexivity.
Qed.

Lemma subset_shape (g : MT19937.mt_state) (all_ids : list Z) (num_users : Z)
    (seed : option Z) (ids : list Z) :
  random_identifier_subset g all_ids num_users seed = Ok ids ->
  exists perm, perm ≡ₚ all_ids /\ ids = py_slice_to perm num_users.
Proof.
  intros H. unfold random_identifier_subset, MT19937.permutation in H.
  destruct (_ || _) in H; [discriminate|]. injection H as <-.
  eexists. split; [apply shuffle_loop_perm | reflexivity].
Qed.

(** X8. The drawn subset is a prefix of a permutation of the ids: it
    only holds ids of the object, and no id twice when the ids are
    distinct (as they are in every reachable state). *)
Theorem random_subset_prefix_of_permutation (g : MT19937.mt_state) (all_ids : list Z)
    (num_users : Z) (seed : option Z) (ids : list Z) :
  random_identifier_subset g all_ids num_users seed = Ok ids ->
  (exists perm, perm ≡ₚ all_ids /\ ids = py_slice_to perm num_users) /\
  (forall i, In i ids -> In i all_ids) /\ (NoDup all_ids -> NoDup ids).
Proof.
  intros H. destruct (subset_shape g all_ids num_users seed ids H) as (perm & Hp & ->).
  split; [exists perm; split; [exact Hp | reflexivity]|].
  destruct (py_slice_to_take perm num_users) as [k ->]. split.
  - intros i Hi. apply list_elem_of_In. rewrite <- Hp.
    apply list_elem_of_In in Hi. apply elem_of_take in Hi as (j & Hj & _).
    apply list_elem_of_lookup. exists j. exact Hj.
  - intros Hn. apply (sublist_NoDup _ perm); [rewrite Hp; exact Hn | apply sublist_take].
Qed.

Lemma random_subset_prefix_of_permutation_witness :
  random_identifier_subset (MT19937.mt19937_seed 0) [1; 2; 3] 2 (Some 42) = Ok [1; 2] /\
  (exists perm, perm ≡ₚ [1; 2; 3] /\ [1; 2] = py_slice_to perm 2) /\
  (forall i, In i [1; 2] -> In i [1; 2; 3]) /\ (NoDup [1; 2; 3] -> NoDup [1; 2]).
Proof.
  assert (H : random_identifier_subset (MT19937.mt19937_seed 0) [1; 2; 3] 2 (Some 42) = Ok [1; 2])
    by (vm_compute; reflexivity).
  split; [exact H | exact (random_subset_prefix_of_permutation _ _ _ _ _ H)].
Defined.

(** X9. A given seed outside [0, 2**32 - 1] makes
    [mean_experiment_load_for_user_subset] raise [ValueError] before any
    load is read. *)
Theorem mean_bad_seed_value_error (g : MT19937.mt_state) (num_users s : Z) (u : userloads) :
  s < 0 \/ MT19937.MASK32 < s ->
  mean_experiment_load_for_user_subset g num_users (Some s) u = (Err ValueError, u).
Proof.
  intros Hs. unfold mean_experiment_load_for_user_subset, random_identifier_subset,
    MT19937.permutation.
  cbv [mbind M_bind gets raise]. replace ((s <? 0) || (MT19937.MASK32 <? s)) with true by lia.
  reflexivity.
Qed.

Lemma mean_bad_seed_value_error_witness :
  (-1 < 0 \/ MT19937.MASK32 < -1) /\
  mean_experiment_load_for_user_subset (MT19937.mt19937_seed 0) 2 (Some (-1)) sample =
    (Err ValueError, sample).
Proof.
  assert (H : -1 < 0 \/ MT19937.MASK32 < -1) by lia.
  split; [exact H | exact (mean_bad_seed_value_error _ 2 (-1) sample H)].
Defined.

(** X10. A negative [num_users] keeps all but the last [-num_users] ids
    of the permutation (Python slicing), none when [num_users <= -n]. *)
Theorem random_subset_negative_count (g : MT19937.mt_state) (all_ids : list Z)
    (num_users : Z) (seed : option Z) (ids : list Z) :
  random_identifier_subset g all_ids num_users seed = Ok ids -> num_users < 0 ->
  Z.of_nat (length ids) = Z.max 0 (Z.of_nat (length all_ids) + num_users).
Proof.
  intros H Hn. unfold random_identifier_subset, MT19937.permutation in H.
  destruct (_ || _) in H; [discriminate|]. injection H as <-.
  unfold py_slice_to, MT19937.shuffle. replace (0 <=? num_users) with false by lia.
  rewrite length_firstn, shuffle_loop_length. lia.
Qed.

Lemma random_subset_negative_count_witness :
  random_identifier_subset (MT19937.mt19937_seed 0) [1; 2; 3] (-1) (Some 42) = Ok [1; 2] /\
  -1 < 0 /\
  Z.of_nat (length [1; 2]) = Z.max 0 (Z.of_nat (length [1; 2; 3]) + -1).
Proof.
  assert (H : random_identifier_subset (MT19937.mt19937_seed 0) [1; 2; 3] (-1) (Some 42) = Ok [1; 2])
    by (vm_compute; reflexivity).
  split; [exact H|]. split; [lia|].
  exact (random_subset_negative_count _ _ _ _ _ H ltac:(lia)).
Defined.

(** X11. With an accepted seed, asking for [num_users <= -len(loads)]
    users draws none, and [mean_experiment_load_for_user_subset] raises
    the [IndexError] of [total_load] on an empty list, leaving the object
    untouched. *)
Theorem mean_empty_draw_index_error (g : MT19937.mt_state) (num_users : Z)
    (seed : option Z) (u : userloads) :
  seed_ok seed -> num_users <= - Z.of_nat (len u) ->
  mean_experiment_load_for_user_subset g num_users seed u = (Err IndexError, u).
Proof.
  intros Hs Hn. destruct (subset_draw g (user_ids u) num_users seed Hs) as [s Hd].
  assert (Hnil : py_slice_to (fst (MT19937.shuffle (user_ids u) (MT19937.mt19937_seed s)))
                   num_users = []).
  { apply length_zero_iff_nil. unfold py_slice_to, MT19937.shuffle, len in *.
    destruct (0 <=? num_users); rewrite length_firstn, shuffle_loop_length; lia. }
  rewrite Hnil in Hd. unfold mean_experiment_load_for_user_subset.
  cbv [mbind M_bind gets]. rewrite Hd. reflexivity.
Qed.

Lemma mean_empty_draw_index_error_witness :
  seed_ok None /\ -3 <= - Z.of_nat (len sample) /\
  mean_experiment_load_for_user_subset (MT19937.mt19937_seed 0) (-3) None sample =
    (Err IndexError, sample).
Proof.
  assert (Hs : seed_ok None) by exact I.
  assert (Hn : -3 <= - Z.of_nat (len sample)) by (vm_compute; discriminate).
  split; [exact Hs|]. split; [exact Hn|].
  exact (mean_empty_draw_index_error _ (-3) None sample Hs Hn).
Defined.

Lemma subset_incl (g : MT19937.mt_state) (all_ids : list Z) (num_users : Z)
    (seed : option Z) (ids : list Z) :
  random_identifier_subset g all_ids num_users seed = Ok ids ->
  forall i, In i ids -> In i all_ids.
Proof.
  intros H. destruct (subset_shape g all_ids num_users seed ids H) as (perm & Hp & ->).
  destruct (py_slice_to_take perm num_users) as [k ->].
  intros i Hi. apply list_elem_of_In. rewrite <- Hp.
  apply list_elem_of_In in Hi. apply elem_of_take in Hi as (j & Hj & _).
  apply list_elem_of_lookup. exists j. exact Hj.
Qed.

(** *** The experiment-period totals *)

Lemma grows_get_value (u0 u : userloads) (i : Z) :
  grows u0 u -> get_value u i = get_value u0 i.
Proof.
  intros Hg. unfold get_value at 1. destruct (_loads u !! i) as [p|] eqn:E.
  - unfold deref. rewrite (g_frames _ _ Hg i p E). reflexivity.
  - assert (E0 : _loads u0 !! i = None).
    { destruct (_loads u0 !! i) as [p|] eqn:E0; [|reflexivity].
      rewrite (g_keep _ _ Hg i p E0) in E. discriminate. }
    unfold get_value. rewrite E0, (g_store _ _ Hg). reflexivity.
Qed.

Lemma grows_trans (u0 u1 u2 : userloads) : grows u0 u1 -> grows u1 u2 -> grows u0 u2.
Proof.
  intros G1 G2. split.
  - rewrite (g_store _ _ G2). exact (g_store _ _ G1).
  - rewrite (g_ids _ _ G2). exact (g_ids _ _ G1).
  - exact (extends_trans _ _ _ (g_prefix _ _ G1) (g_prefix _ _ G2)).
  - intros i p H. exact (g_keep _ _ G2 i p (g_keep _ _ G1 i p H)).
  - intros i p H. rewrite (g_frames _ _ G2 i p H). rewrite (grows_get_value u0 u1 i G1).
    reflexivity.
Qed.

Lemma fold_total_ext (f f' : Z -> frame) (i0 : Z) (rest : list Z) (lo hi : Z) :
  (forall i, f i = f' i) -> fold_total f i0 rest lo hi = fold_total f' i0 rest lo hi.
Proof.
  intros H. unfold fold_total. rewrite H. f_equal.
  apply map_ext. intros i. rewrite H. reflexivity.
Qed.

(** [total_load_in_experiment_periods] over valid ids: two fresh totals,
    one per period, each the fold of the values before the call. *)
Lemma periods_spec (u0 : userloads) (i0 : Z) (rest : list Z) :
  cached_frames u0 -> Forall (fun i => mem i (user_ids u0) = true) (i0 :: rest) ->
  exists t1 t2 uf,
    total_load_in_experiment_periods (i0 :: rest) u0 = (Ok [t1; t2], uf) /\
    heap uf !! t1 = Some (Frame (fold_total (get_value u0) i0 rest 1075593600 1120176000)) /\
    heap uf !! t2 = Some (Frame (fold_total (get_value u0) i0 rest 1128124800 1159660800)) /\
    grows u0 uf /\ t1 <> t2.
Proof.
  intros Hc Hall.
  destruct (total_load_spec_cf u0 i0 rest 1075593600 1120176000 Hc Hall)
    as (t1 & u1 & E1 & Ht1 & G1 & _ & _).
  assert (Hall1 : Forall (fun i => mem i (user_ids u1) = true) (i0 :: rest))
    by (unfold user_ids; rewrite (g_ids _ _ G1); exact Hall).
  destruct (total_load_spec_cf u1 i0 rest 1128124800 1159660800
              (grows_cached_frames _ _ G1) Hall1)
    as (t2 & u2 & E2 & Ht2 & G2 & L2 & _).
  exists t1, t2, u2.
  assert (E2' : mapM (fun period => total_load (i0 :: rest) period)
                  [(1128124800, 1159660800)] u1 = (Ok [t2], u2)).
  { simpl. rewrite (bind_Ok _ _ _ _ _ E2). reflexivity. }
  split; [|split; [|split; [|split]]].
  - unfold total_load_in_experiment_periods, experiment_periods.
    cbn [mapM]. rewrite (bind_Ok _ _ _ _ _ E1). cbn [mapM] in E2'.
    rewrite (bind_Ok _ _ _ _ _ E2'). reflexivity.
  - apply (g_prefix _ _ G2). exact Ht1.
  - rewrite Ht2. f_equal. f_equal. apply fold_total_ext.
    intros i. exact (grows_get_value u0 u1 i G1).
  - exact (grows_trans _ _ _ G1 G2).
  - apply lookup_lt_Some in Ht1. lia.
Qed.



(** X13. [total_experiment_load] raises [IndexError] (changing nothing)
    when there are no users, and otherwise returns the two period totals
    over all users, in the order of [user_ids]. *)
Theorem total_experiment_load_spec (u : userloads) :
  reachable u ->
  (user_ids u = [] -> total_experiment_load u = (Err IndexError, u)) /\
  (forall i0 rest, user_ids u = i0 :: rest -> exists t1 t2 uf,
     total_experiment_load u = (Ok [t1; t2], uf) /\
     deref (heap uf) t1 = fold_total (get_value u) i0 rest 1075593600 1120176000 /\
     deref (heap uf) t2 = fold_total (get_value u) i0 rest 1128124800 1159660800).
Proof.
  intros Hr. split.
  - intros He. unfold total_experiment_load. cbv [mbind M_bind gets]. rewrite He.
    reflexivity.
  - intros i0 rest He.
    assert (Hall : Forall (fun i => mem i (user_ids u) = true) (i0 :: rest)).
    { apply List.Forall_forall. intros i Hi. apply mem_In. rewrite He. exact Hi. }
    destruct (periods_spec u i0 rest (cache_inv_cached_frames u (reachable_inv u Hr)) Hall)
      as (t1 & t2 & uf & E & H1 & H2 & _ & _).
    exists t1, t2, uf. split.
    + unfold total_experiment_load. cbv [mbind M_bind gets]. rewrite He. exact E.
    + unfold deref. rewrite H1, H2. split; reflexivity.
Qed.

Lemma total_experiment_load_spec_witness :
  reachable sample /\
  (user_ids sample = [] -> total_experiment_load sample = (Err IndexError, sample)) /\
  (forall i0 rest, user_ids sample = i0 :: rest -> exists t1 t2 uf,
     total_experiment_load sample = (Ok [t1; t2], uf) /\
     deref (heap uf) t1 = fold_total (get_value sample) i0 rest 1075593600 1120176000 /\
     deref (heap uf) t2 = fold_total (get_value sample) i0 rest 1128124800 1159660800).
Proof.
  assert (Hr : reachable sample) by apply reach_init.
  split; [exact Hr | exact (total_experiment_load_spec sample Hr)].
Defined.

(** X14. With an accepted seed, at least one requested user and a
    non-empty id set, [mean_experiment_load_for_user_subset] succeeds: it
    returns, for each experiment period, the fold of the drawn users'
    loads divided by the number of users drawn. *)
Theorem mean_subset_succeeds (g : MT19937.mt_state) (num_users : Z) (seed : option Z)
    (u : userloads) :
  reachable u -> seed_ok seed -> 1 <= num_users -> user_ids u <> [] ->
  exists i0 rest uf,
    random_identifier_subset g (user_ids u) num_users seed = Ok (i0 :: rest) /\
    mean_experiment_load_for_user_subset g num_users seed u =
      (Ok [div_frame (fold_total (get_value u) i0 rest 1075593600 1120176000)
                     (length (i0 :: rest));
           div_frame (fold_total (get_value u) i0 rest 1128124800 1159660800)
                     (length (i0 :: rest))], uf).
Proof.
  intros Hr Hs Hn Hne.
  destruct (subset_draw g (user_ids u) num_users seed Hs) as [s Hd].
  remember (py_slice_to (fst (MT19937.shuffle (user_ids u) (MT19937.mt19937_seed s)))
              num_users) as ids eqn:Eids.
  pose proof (random_identifier_subset_length _ _ _ _ _ Hd ltac:(lia)) as Hl.
  destruct ids as [|i0 rest].
  { destruct (user_ids u); [contradiction|]. simpl in Hl. lia. }
  assert (Hall : Forall (fun i => mem i (user_ids u) = true) (i0 :: rest)).
  { apply List.Forall_forall. intros i Hi. apply mem_In.
    exact (subset_incl _ _ _ _ _ Hd i Hi). }
  destruct (periods_spec u i0 rest (cache_inv_cached_frames u (reachable_inv u Hr)) Hall)
    as (t1 & t2 & uf & E & H1 & H2 & _ & _).
  exists i0, rest, uf. split; [exact Hd|].
  unfold mean_experiment_load_for_user_subset. cbv [mbind M_bind gets mret M_ret].
  rewrite Hd. rewrite E. simpl. unfold deref. rewrite H1, H2. reflexivity.
Qed.

Lemma mean_subset_succeeds_witness :
  reachable sample /\ seed_ok (Some 42) /\ 1 <= 2 /\ user_ids sample <> [] /\
  exists i0 rest uf,
    random_identifier_subset (MT19937.mt19937_seed 0) (user_ids sample) 2 (Some 42) =
      Ok (i0 :: rest) /\
    mean_experiment_load_for_user_subset (MT19937.mt19937_seed 0) 2 (Some 42) sample =
      (Ok [div_frame (fold_total (get_value sample) i0 rest 1075593600 1120176000)
                     (length (i0 :: rest));
           div_frame (fold_total (get_value sample) i0 rest 1128124800 1159660800)
                     (length (i0 :: rest))], uf).
Proof.
  assert (Hr : reachable sample) by apply reach_init.
  assert (Hs : seed_ok (Some 42)) by (simpl; unfold MT19937.MASK32; lia).
  assert (Hne : user_ids sample <> []) by (vm_compute; discriminate).
  split; [exact Hr|]. split; [exact Hs|]. split; [lia|]. split; [exact Hne|].
  exact (mean_subset_succeeds _ 2 (Some 42) sample Hr Hs ltac:(lia) Hne).
Defined.

(** *** [tempfeeder_exp_nonzerotest_users] *)

Lemma getitem_loads (u : userloads) (i : Z) (p : nat) (u' : userloads) :
  mem i (user_ids u) = true -> getitem i u = (Ok p, u') ->
  _loads u' !! i = Some p /\ (forall j q, _loads u !! j = Some q -> _loads u' !! j = Some q).
Proof.
  intros Hi H. destruct (_loads u !! i) as [q|] eqn:E.
  - rewrite (getitem_hit u i q E) in H. injection H as <- <-.
    split; [exact E | intros j q' Hj; exact Hj].
  - rewrite getitem_miss in H by exact E. rewrite read_valid in H by exact Hi.
    injection H as <- <-. simpl. split; [apply lookup_insert_eq|].
    intros j q' Hj. rewrite lookup_insert_ne; [exact Hj | congruence].
Qed.

Lemma nonzero_filter_spec (u0 : userloads) (ids : list Z) :
  forall u, grows u0 u -> Forall (fun i => mem i (_user_ids u0) = true) ids ->
  exists uf,
    filterM (fun user =>
               p ← getitem user;
               h ← gets heap;
               mret (forallb (fun row => float_truthy (snd row))
                             (restrict_from (deref h p) test_period_start))) ids u =
      (Ok (List.filter (fun i => nonzero_in_test_period (get_value u0 i)) ids), uf) /\
    grows u0 uf /\ (forall j q, _loads u !! j = Some q -> _loads uf !! j = Some q) /\
    (forall i, In i ids -> is_Some (_loads uf !! i)).
Proof.
  induction ids as [|a ids IH]; intros u Hg Hall.
  - exists u. split; [reflexivity|]. split; [exact Hg|].
    split; [intros j q H; exact H | intros i []].
  - inversion Hall as [|? ? Ha Hrest]; subst.
    destruct (getitem_grows u0 u a Hg Ha) as (p & u1 & Hget & Hg1 & _ & Hp).
    assert (Ha' : mem a (user_ids u) = true)
      by (unfold user_ids; rewrite (g_ids _ _ Hg); exact Ha).
    destruct (getitem_loads u a p u1 Ha' Hget) as [Hl1 Hk1].
    destruct (IH u1 Hg1 Hrest) as (uf & E & Hgf & Hkf & Hin).
    exists uf. split; [|split; [exact Hgf|split]].
    + cbn [filterM]. cbv [mbind M_bind gets mret M_ret] in *. rewrite Hget.
      rewrite E. replace (deref (heap u1) p) with (get_value u0 a)
        by (unfold deref; rewrite Hp; reflexivity). cbn [List.filter].
      unfold nonzero_in_test_period. destruct (forallb _ _); reflexivity.
    + intros j q H. exact (Hkf j q (Hk1 j q H)).
    + intros i [<-|Hi]; [exists p; exact (Hkf _ _ Hl1) | exact (Hin i Hi)].
Qed.

(** X15. On a reachable object, [tempfeeder_exp_nonzerotest_users]
    keeps, in the order of [user_ids], exactly the users whose load has no
    zero reading from 2005-10-01 00:00 on, and leaves every user cached
    with the load [getitem] gave before the call. *)
Theorem nonzerotest_users_filter (u : userloads) :
  reachable u ->
  exists uf,
    tempfeeder_exp_nonzerotest_users u =
      (Ok (List.filter (fun i => nonzero_in_test_period (get_value u i)) (user_ids u)), uf) /\
    (forall i, mem i (user_ids u) = true ->
       exists p, _loads uf !! i = Some p /\ deref (heap uf) p = get_value u i).
Proof.
  intros Hr.
  assert (Hall : Forall (fun i => mem i (_user_ids u) = true) (user_ids u)).
  { apply List.Forall_forall. intros i Hi. apply mem_In. exact Hi. }
  destruct (nonzero_filter_spec u (user_ids u) u
              (grows_refl u (reachable_inv u Hr)) Hall) as (uf & E & Hg & _ & Hin).
  exists uf. split.
  - unfold tempfeeder_exp_nonzerotest_users. cbv [mbind M_bind gets]. exact E.
  - intros i Hi. apply mem_In in Hi. destruct (Hin i Hi) as [p Hp].
    exists p. split; [exact Hp|]. unfold deref. rewrite (g_frames _ _ Hg i p Hp).
    reflexivity.
Qed.

Lemma nonzerotest_users_filter_witness :
  reachable sample /\
  exists uf,
    tempfeeder_exp_nonzerotest_users sample =
      (Ok (List.filter (fun i => nonzero_in_test_period (get_value sample i)) (user_ids sample)), uf) /\
    (forall i, mem i (user_ids sample) = true ->
       exists p, _loads uf !! i = Some p /\ deref (heap uf) p = get_value sample i).
Proof.
  assert (Hr : reachable sample) by apply reach_init.
  split; [exact Hr | exact (nonzerotest_users_filter sample Hr)].
Defined.

(** X16. A user with no reading at all from 2005-10-01 00:00 on passes
    the test ([all] of an empty series is true), so it is selected. *)
Theorem nonzerotest_users_empty_window (u : userloads) (i : Z) :
  reachable u -> mem i (user_ids u) = true ->
  restrict_from (get_value u i) test_period_start = [] ->
  exists ids uf, tempfeeder_exp_nonzerotest_users u = (Ok ids, uf) /\ In i ids.
Proof.
  intros Hr Hi He.
  assert (Hall : Forall (fun i => mem i (_user_ids u) = true) (user_ids u)).
  { apply List.Forall_forall. intros j Hj. apply mem_In. exact Hj. }
  destruct (nonzero_filter_spec u (user_ids u) u
              (grows_refl u (reachable_inv u Hr)) Hall) as (uf & E & _).
  eexists _, uf. split.
  - unfold tempfeeder_exp_nonzerotest_users. cbv [mbind M_bind gets]. exact E.
  - apply filter_In. split; [apply mem_In; exact Hi|].
    unfold nonzero_in_test_period. rewrite He. reflexivity.
Qed.

Lemma nonzerotest_users_empty_window_witness :
  reachable sample /\ mem 1 (user_ids sample) = true /\
  restrict_from (get_value sample 1) test_period_start = [] /\
  exists ids uf, tempfeeder_exp_nonzerotest_users sample = (Ok ids, uf) /\ In 1 ids.
Proof.
  assert (Hr : reachable sample) by apply reach_init.
  assert (Hi : mem 1 (user_ids sample) = true) by (vm_compute; reflexivity).
  assert (He : restrict_from (get_value sample 1) test_period_start = [])
    by (vm_compute; reflexivity).
  split; [exact Hr|]. split; [exact Hi|]. split; [exact He|].
  exact (nonzerotest_users_empty_window sample 1 Hr Hi He).
Defined.

(** *** [NSK129] *)

(** One round [total += userloads.read(user_id)] of the loop of [NSK129]. *)
Lemma nsk_step (total : nat) (acc : frame) (u : userloads) (a : Z) :
  mem a (user_ids u) = true -> heap u !! total = Some (Frame acc) ->
  (l ← read a; iadd total l) u =
    (Ok tt, set_heap (<[total := Frame (align_add acc (stored_load (_store u) a))]>
                        (heap (after_read u a))) (after_read u a)).
Proof.
  intros Ha Ht. rewrite (bind_Ok _ _ u _ _ (read_valid u a Ha)).
  unfold iadd, modify. f_equal. f_equal.
  assert (Ht1 : heap (after_read u a) !! total = Some (Frame acc))
    by (simpl; exact (lookup_app_l_Some _ _ _ _ Ht)).
  unfold write_obj. rewrite Ht1. f_equal. f_equal.
  replace (deref (heap (after_read u a)) total) with acc by (unfold deref; rewrite Ht1; reflexivity).
  simpl. rewrite deref_app_last. reflexivity.
Qed.

Lemma nsk_loop (total : nat) (rest : list Z) :
  forall u acc, Forall (fun i => mem i (user_ids u) = true) rest ->
  heap u !! total = Some (Frame acc) ->
  exists uf, iterM (fun user_id => l ← read user_id; iadd total l) rest u = (Ok tt, uf) /\
    heap uf !! total = Some (Frame (fold_left align_add (map (stored_load (_store u)) rest) acc)) /\
    reads uf = reads u ++ rest /\ _store uf = _store u /\ _user_ids uf = _user_ids u /\
    (forall q o, q <> total -> heap u !! q = Some o -> heap uf !! q = Some o) /\
    (forall i, ~ In i rest -> _loads uf !! i = _loads u !! i) /\
    (forall i, In i rest -> exists p, _loads uf !! i = Some p /\ p <> total /\
                                      heap uf !! p = Some (Frame (stored_load (_store u) i))).
Proof.
  induction rest as [|a rest IH]; intros u acc Hall Ht.
  - exists u. rewrite app_nil_r. split; [reflexivity|]. split; [exact Ht|].
    split; [reflexivity|]. split; [reflexivity|]. split; [reflexivity|].
    split; [intros q o _ H; exact H|]. split; [intros i _; reflexivity | intros i []].
  - inversion Hall as [|? ? Ha Hrest]; subst.
    set (acc1 := align_add acc (stored_load (_store u) a)).
    set (u2 := set_heap (<[total := Frame acc1]> (heap (after_read u a))) (after_read u a)).
    assert (Hlt : (total < length (heap u))%nat) by exact (lookup_lt_Some _ _ _ Ht).
    assert (Ht2 : heap u2 !! total = Some (Frame acc1)).
    { unfold u2. simpl. apply list_lookup_insert_eq. rewrite length_app. lia. }
    destruct (IH u2 acc1 Hrest Ht2) as (uf & E & Htf & Hr & Hs & Hi & Hkeep & Hout & Hin).
    exists uf. cbn [iterM]. rewrite (bind_Ok _ _ u tt u2 (nsk_step total acc u a Ha Ht)).
    assert (Hkeep2 : forall q o, q <> total -> heap (after_read u a) !! q = Some o ->
                                 heap u2 !! q = Some o).
    { intros q o Hq H. unfold u2. simpl. rewrite list_lookup_insert_ne by congruence.
      exact H. }
    split; [exact E|]. split; [exact Htf|].
    split; [rewrite Hr; simpl; rewrite <- app_assoc; reflexivity|].
    split; [exact Hs|]. split; [exact Hi|]. split.
    + intros q o Hq H. apply Hkeep; [exact Hq|]. apply Hkeep2; [exact Hq|].
      simpl. exact (lookup_app_l_Some _ _ _ _ H).
    + split.
      * intros i Hni. rewrite Hout by (intros H; apply Hni; right; exact H).
        simpl. apply lookup_insert_ne. intros ->. apply Hni. left. reflexivity.
      * intros i Hi'. destruct (in_dec Z.eq_dec i rest) as [Hr'|Hnr].
        -- exact (Hin i Hr').
        -- destruct Hi' as [<-|]; [|contradiction].
           exists (length (heap u)). rewrite (Hout _ Hnr). simpl.
           split; [apply lookup_insert_eq|]. split; [lia|].
           apply Hkeep; [lia|]. apply Hkeep2; [lia|].
           simpl. apply list_lookup_middle. reflexivity.
Qed.

(** [NSK129] over distinct valid ids: the total is the object [read]
    cached under the first id, updated in place. *)
Lemma nsk_body_spec (u : userloads) (first : Z) (rest : list Z) :
  Forall (fun i => mem i (user_ids u) = true) (first :: rest) -> ~ In first rest ->
  exists p uf, NSK129_body (first :: rest) u = (Ok p, uf) /\
    getitem first uf = (Ok p, uf) /\
    deref (heap uf) p =
      fold_left align_add (map (stored_load (_store u)) rest) (stored_load (_store u) first) /\
    reads uf = reads u ++ first :: rest /\
    (forall i, In i rest -> exists q, getitem i uf = (Ok q, uf) /\ q <> p /\
                                      deref (heap uf) q = stored_load (_store u) i).
Proof.
  intros Hall Hn. inversion Hall as [|? ? Hf Hrest]; subst.
  set (u1 := after_read u first).
  assert (Ht : heap u1 !! length (heap u) = Some (Frame (stored_load (_store u) first)))
    by (unfold u1; simpl; apply list_lookup_middle; reflexivity).
  destruct (nsk_loop (length (heap u)) rest u1 _ Hrest Ht)
    as (uf & E & Htf & Hr & _ & _ & _ & Hout & Hin).
  exists (length (heap u)), uf.
  assert (Hl : _loads uf !! first = Some (length (heap u))).
  { rewrite (Hout first Hn). unfold u1. simpl. apply lookup_insert_eq. }
  split; [|split; [|split; [|split]]].
  - unfold NSK129_body. rewrite (bind_Ok _ _ u _ u1 (read_valid u first Hf)).
    rewrite (bind_Ok _ _ u1 tt uf E). reflexivity.
  - exact (getitem_hit uf first _ Hl).
  - unfold deref. rewrite Htf. reflexivity.
  - rewrite Hr. unfold u1. simpl. rewrite <- app_assoc. reflexivity.
  - intros i Hi. destruct (Hin i Hi) as (q & Hq & Hne & Hh).
    exists q. split; [exact (getitem_hit uf i q Hq)|]. split; [exact Hne|].
    unfold deref. rewrite Hh. reflexivity.
Qed.

(** X17. [NSK129] on distinct valid ids returns the object it read for
    the first id, which stays cached under that id: after the call
    [userloads[first]] is the running total (the left fold of the stored
    loads), not the first meter's load. Every id is read from the store
    once, in order, and the other ids stay cached with their stored loads. *)
Theorem NSK129_total_aliases_first (u : userloads) (first : Z) (rest : list Z) :
  Forall (fun i => mem i (user_ids u) = true) (first :: rest) -> ~ In first rest ->
  exists p uf, NSK129_body (first :: rest) u = (Ok p, uf) /\
    getitem first uf = (Ok p, uf) /\
    deref (heap uf) p =
      fold_left align_add (map (stored_load (_store u)) rest) (stored_load (_store u) first) /\
    reads uf = reads u ++ first :: rest /\
    (forall i, In i rest -> exists q, getitem i uf = (Ok q, uf) /\ q <> p /\
                                      deref (heap uf) q = stored_load (_store u) i).
Proof. exact (nsk_body_spec u first rest). Qed.

Lemma NSK129_total_aliases_first_witness :
  Forall (fun i => mem i (user_ids sample) = true) [1; 2; 3] /\ ~ In 1 [2; 3] /\
  exists p uf, NSK129_body [1; 2; 3] sample = (Ok p, uf) /\
    getitem 1 uf = (Ok p, uf) /\
    deref (heap uf) p =
      fold_left align_add (map (stored_load (_store sample)) [2; 3])
                (stored_load (_store sample) 1) /\
    reads uf = reads sample ++ [1; 2; 3] /\
    (forall i, In i [2; 3] -> exists q, getitem i uf = (Ok q, uf) /\ q <> p /\
                                        deref (heap uf) q = stored_load (_store sample) i).
Proof.
  assert (Hall : Forall (fun i => mem i (user_ids sample) = true) [1; 2; 3])
    by repeat constructor.
  assert (Hn : ~ In 1 [2; 3]) by (simpl; lia).
  split; [exact Hall|]. split; [exact Hn|].
  exact (NSK129_total_aliases_first sample 1 [2; 3] Hall Hn).
Defined.

Lemma nsk_loop_err (total : nat) (rest : list Z) :
  forall u, Exists (fun i => mem i (user_ids u) = false) rest ->
  fst (iterM (fun user_id => l ← read user_id; iadd total l) rest u) = Err KeyError.
Proof.
  induction rest as [|a rest IH]; intros u Hex; [inversion Hex|].
  cbn [iterM]. destruct (mem a (user_ids u)) eqn:Ha.
  - assert (Hex' : Exists (fun i => mem i (user_ids u) = false) rest)
      by (inversion Hex; [congruence | assumption]).
    assert (Hs : (l ← read a; iadd total l) u =
                 iadd total (length (heap u)) (after_read u a))
      by exact (bind_Ok _ _ u _ _ (read_valid u a Ha)).
    rewrite (bind_Ok _ _ u tt _ Hs). apply IH. exact Hex'.
  - cbv [mbind M_bind] in *. rewrite (read_invalid u a Ha). reflexivity.
Qed.

(** X18. [NSK129] raises [KeyError] as soon as one of its ids is not a
    valid user id (the ids before it have been read by then). *)
Theorem NSK129_unknown_id_key_error (u : userloads) (ids : list Z) :
  Exists (fun i => mem i (user_ids u) = false) ids ->
  fst (NSK129_body ids u) = Err KeyError.
Proof.
  intros Hex. destruct ids as [|first rest]; [inversion Hex|].
  unfold NSK129_body. destruct (mem first (user_ids u)) eqn:Hf.
  - assert (Hex' : Exists (fun i => mem i (user_ids u) = false) rest)
      by (inversion Hex; [congruence | assumption]).
    rewrite (bind_Ok _ _ u _ _ (read_valid u first Hf)).
    cbv [mbind M_bind] in *.
    pose proof (nsk_loop_err (length (heap u)) rest (after_read u first) Hex') as H.
    destruct (iterM _ rest (after_read u first)) as [[]]; simpl in H; [discriminate|].
    simpl. congruence.
  - cbv [mbind M_bind] in *. rewrite (read_invalid u first Hf). reflexivity.
Qed.

Lemma NSK129_unknown_id_key_error_witness :
  Exists (fun i => mem i (user_ids sample) = false) [1; 4; 2] /\
  fst (NSK129_body [1; 4; 2] sample) = Err KeyError.
Proof.
  assert (Hex : Exists (fun i => mem i (user_ids sample) = false) [1; 4; 2])
    by (apply Exists_cons_tl, Exists_cons_hd; vm_compute; reflexivity).
  split; [exact Hex | exact (NSK129_unknown_id_key_error sample _ Hex)].
Defined.

(** X19. On a store holding every meter of [NSK129_user_ids] (a list
    without duplicates), [NSK129] reads each of them once, in order, and
    returns the total, which is the object then cached under the first
    meter 707057500045751944. *)
Theorem NSK129_spec (u : userloads) :
  forallb (fun i => mem i (user_ids u)) NSK129_user_ids = true ->
  exists p uf, NSK129 u = (Ok p, uf) /\
    getitem 707057500045751944 uf = (Ok p, uf) /\
    deref (heap uf) p =
      fold_left align_add (map (stored_load (_store u)) (tl NSK129_user_ids))
                (stored_load (_store u) 707057500045751944) /\
    reads uf = reads u ++ NSK129_user_ids.
Proof.
  intros Hv.
  assert (Hall : Forall (fun i => mem i (user_ids u) = true) NSK129_user_ids).
  { apply List.Forall_forall. intros i Hi. exact (proj1 (forallb_forall _ _) Hv i Hi). }
  assert (Hn : ~ In 707057500045751944 (tl NSK129_user_ids)).
  { rewrite <- mem_In. vm_compute. discriminate. }
  destruct (nsk_body_spec u 707057500045751944 (tl NSK129_user_ids) Hall Hn)
    as (p & uf & E & Hg & Hd & Hr & _).
  exists p, uf. split; [exact E|]. split; [exact Hg|]. split; [exact Hd | exact Hr].
Qed.

Lemma NSK129_spec_witness :
  forallb (fun i => mem i (user_ids (UserLoads_init
    {| stored_user_ids := NSK129_user_ids; stored_load := stored_load sample_store |})))
    NSK129_user_ids = true /\
  exists p uf, NSK129 (UserLoads_init
      {| stored_user_ids := NSK129_user_ids; stored_load := stored_load sample_store |}) =
      (Ok p, uf) /\
    getitem 707057500045751944 uf = (Ok p, uf) /\
    deref (heap uf) p =
      fold_left align_add (map (stored_load sample_store) (tl NSK129_user_ids))
                (stored_load sample_store 707057500045751944) /\
    reads uf = [] ++ NSK129_user_ids.
Proof.
  assert (Hv : forallb (fun i => mem i (user_ids (UserLoads_init
    {| stored_user_ids := NSK129_user_ids; stored_load := stored_load sample_store |})))
    NSK129_user_ids = true) by (vm_compute; reflexivity).
  split; [exact Hv | exact (NSK129_spec _ Hv)].
Defined.

(** *** [total_load] on an unknown id *)

Lemma slice_shape (u : userloads) (p : nat) (lo hi : Z) :
  exists o, slice p lo hi u = (Ok (length (heap u)), set_heap (heap u ++ [o]) u).
Proof.
  cbv [slice mbind M_bind gets alloc]. destruct (heap u !! p) as [[]|]; eexists; reflexivity.
Qed.

Lemma getitem_valid_step (u : userloads) (i : Z) :
  loads_valid u -> mem i (user_ids u) = true ->
  exists p u', getitem i u = (Ok p, u') /\ loads_valid u' /\ _user_ids u' = _user_ids u.
Proof.
  intros Hv Hi. destruct (_loads u !! i) as [p|] eqn:E.
  - exists p, u. split; [exact (getitem_hit u i p E)|]. split; [exact Hv | reflexivity].
  - exists (length (heap u)), (after_read u i).
    rewrite getitem_miss by exact E. rewrite read_valid by exact Hi.
    split; [reflexivity|]. split; [|reflexivity].
    intros j q Hj. simpl in Hj. apply lookup_insert_Some in Hj as [[<- _]|[_ Hj]];
      [exact Hi | exact (Hv j q Hj)].
Qed.

Lemma bind_fst_Err {A B} (m : M A) (f : A -> M B) (u : userloads) (e : exn) :
  fst (m u) = Err e -> fst ((m ≫= f) u) = Err e.
Proof. intros H. cbv [mbind M_bind]. destruct (m u) as [[a|e'] u']; simpl in *; congruence. Qed.

Lemma series_unknown_id (lo hi : Z) (ids : list Z) :
  forall u, loads_valid u -> Exists (fun i => mem i (user_ids u) = false) ids ->
  fst (mapM (fun user => p ← getitem user; slice p lo hi) ids u) = Err KeyError.
Proof.
  induction ids as [|a ids IH]; intros u Hv Hex; [inversion Hex|].
  cbn [mapM]. destruct (mem a (user_ids u)) eqn:Ha.
  - assert (Hex' : Exists (fun i => mem i (user_ids u) = false) ids)
      by (inversion Hex; [congruence | assumption]).
    destruct (getitem_valid_step u a Hv Ha) as (p & u1 & Hg & Hv1 & Hi1).
    destruct (slice_shape u1 p lo hi) as [o Hs].
    assert (Hf : (p ← getitem a; slice p lo hi) u =
                 (Ok (length (heap u1)), set_heap (heap u1 ++ [o]) u1))
      by (rewrite (bind_Ok _ _ u _ _ Hg); exact Hs).
    rewrite (bind_Ok _ _ u _ _ Hf).
    assert (Hex1 : Exists (fun i => mem i (user_ids (set_heap (heap u1 ++ [o]) u1)) = false) ids)
      by (unfold user_ids; simpl; rewrite Hi1; exact Hex').
    apply bind_fst_Err. exact (IH (set_heap (heap u1 ++ [o]) u1) Hv1 Hex1).
  - assert (E : _loads u !! a = None).
    { destruct (_loads u !! a) as [q|] eqn:E; [|reflexivity].
      rewrite (Hv a q E) in Ha. discriminate. }
    cbv [mbind M_bind] in *. rewrite (getitem_miss u a E), (read_invalid u a Ha).
    reflexivity.
Qed.

(** X20. On a reachable object, [total_load] over a list holding an id
    that is not a valid user id raises [KeyError] (not [IndexError], and
    without computing a total). *)
Theorem total_load_unknown_id_key_error (u : userloads) (ids : list Z) (period : Z * Z) :
  reachable u -> Exists (fun i => mem i (user_ids u) = false) ids ->
  fst (total_load ids period u) = Err KeyError.
Proof.
  intros Hr Hex. pose proof (series_unknown_id (fst period) (snd period) ids u
                               (inv_valid u (reachable_inv u Hr)) Hex) as H.
  unfold total_load. apply bind_fst_Err. exact H.
Qed.

Lemma total_load_unknown_id_key_error_witness :
  reachable sample /\ Exists (fun i => mem i (user_ids sample) = false) [1; 4] /\
  fst (total_load [1; 4] (1075593600, 1075597200) sample) = Err KeyError.
Proof.
  assert (Hr : reachable sample) by apply reach_init.
  assert (Hex : Exists (fun i => mem i (user_ids sample) = false) [1; 4])
    by (apply Exists_cons_tl, Exists_cons_hd; vm_compute; reflexivity).
  split; [exact Hr|]. split; [exact Hex|].
  exact (total_load_unknown_id_key_error sample _ _ Hr Hex).
Defined.
